(** * The dive planner's set point schedule, persistence and delete guards

    A shallow embedding of [set_points.cpp] (the [SetPoints] class),
    [gaslist.cpp] (the [GasList] class) and of the delete handlers of
    [DivePlanWindow], followed by the properties proved about them.

    Conventions.
    - A C++ [double] is its IEEE-754 binary64 object representation, a
      64-bit word; the comparison operators are the IEEE ones (a NaN is
      unordered, the two zeros are equal).
    - [size_t] is a 64-bit unsigned word, an [enum class] a 32-bit word;
      files are byte sequences in host (little-endian) order.
    - Undefined behaviour (an out-of-range [operator[]], the use of a
      variable that a short read left uninitialised) is [None].
    - Memory allocation succeeds, except where [std::vector::reserve] must
      throw [std::length_error]. *)

From Stdlib Require Import ZArith List Lia Bool Floats Permutation Sorted.
From coqutil Require Import Word.Interface Word.Properties Word.Naive.
From coqutil Require Import Word.LittleEndianList.
Import ListNotations.
Local Open Scope Z_scope.

#[local] Set Warnings "-inexact-float".

Definition byte : Type := Init.Byte.byte.

(** ** Error monad for undefined behaviour *)

Notation "x <- e ;; k" :=
  (match e with Some x => k | None => None end)
  (at level 61, e at next level, right associativity).
Notation "' p <- e ;; k" :=
  (match e with Some p => k | None => None end)
  (at level 61, p pattern, e at next level, right associativity).

(** ** IEEE-754 binary64 values *)

Definition double : Type := Naive.word64.

Module Double.

Definition bits (x : double) : Z := word.unsigned x.
Definition of_bits (z : Z) : double := word.of_Z z.

(** Sign bit, and the 63 bits of biased exponent and fraction. *)
Definition sign (x : double) : bool := Z.testbit (bits x) 63.
Definition magnitude (x : double) : Z := Z.land (bits x) (Z.ones 63).

(** Exponent field all ones and a non-zero fraction. *)
Definition is_nan (x : double) : bool := 0x7ff0000000000000 <? magnitude x.

(** On values that are not NaN the IEEE order is the order of the
    sign-magnitude integers. *)
Definition ord_key (x : double) : Z :=
  if sign x then - magnitude x else magnitude x.

Definition compare (a b : double) : option comparison :=
  if is_nan a || is_nan b then None else Some (ord_key a ?= ord_key b).

(** [a < b], [a <= b], [a == b], [a > b], [a >= b] of C++. *)
Definition lt (a b : double) : bool :=
  match compare a b with Some Lt => true | _ => false end.
Definition le (a b : double) : bool :=
  match compare a b with Some Lt | Some Eq => true | _ => false end.
Definition eq (a b : double) : bool :=
  match compare a b with Some Eq => true | _ => false end.
Definition gt (a b : double) : bool := lt b a.
Definition ge (a b : double) : bool := le b a.

(** The binary64 encoding of a float given as sign, mantissa, exponent. *)
Definition bits_of_SF (f : spec_float) : Z :=
  match f with
  | S754_zero s => if s then 2 ^ 63 else 0
  | S754_infinity s => (if s then 2 ^ 63 else 0) + 0x7ff0000000000000
  | S754_nan => 0x7ff8000000000000
  | S754_finite s m e =>
      (if s then 2 ^ 63 else 0) +
      (if Z.pos m <? 2 ^ 52 then Z.pos m
       else (e + 1075) * 2 ^ 52 + (Z.pos m - 2 ^ 52))
  end.

(** And back: the value a bit pattern denotes. *)
Definition to_SF (x : double) : spec_float :=
  let e := Z.shiftr (magnitude x) 52 in
  let f := Z.land (magnitude x) (Z.ones 52) in
  if e =? 0 then
    if f =? 0 then S754_zero (sign x)
    else S754_finite (sign x) (Z.to_pos f) (-1074)
  else if e =? 2047 then
    if f =? 0 then S754_infinity (sign x) else S754_nan
  else S754_finite (sign x) (Z.to_pos (2 ^ 52 + f)) (e - 1075).

(** A floating-point literal of the source. *)
Definition lit (f : float) : double := of_bits (bits_of_SF (Prim2SF f)).

End Double.

(** ** The parts of the C++ library the code calls *)

Module Std.

Section Sort.
Context {A : Type} (comp : A -> A -> bool).

(** [std::sort] as libstdc++ runs it on the short vectors sorted here (up
    to 16 elements): [__insertion_sort].  The elements before the current
    one are sorted; the current one goes to the front when it precedes the
    first, and otherwise moves left while it precedes its neighbour
    ([__unguarded_linear_insert], here on the reversed prefix).  On
    longer ranges, and in other implementations, the result can differ in
    the order of elements neither of which precedes the other; where
    [comp] is not a strict weak ordering of the elements the C++ standard
    leaves the call undefined, and this is what libstdc++ does.

    On more than [S_threshold] elements libstdc++ partitions the range
    first ([__introsort_loop]), which can exchange elements that compare
    equal (a +0.0 and a -0.0): there, on elements that [comp] orders,
    [sort] gives the same elements in an order that differs at most
    among such elements.  What is proved of
    the exact result of a sort is therefore stated for at most
    [S_threshold] elements; what is proved for every length (that the
    result is a permutation, and is in order) holds of every sorted
    arrangement. *)
Fixpoint unguarded_linear_insert (val : A) (rprefix : list A) : list A :=
  match rprefix with
  | [] => [val]
  | next :: rest =>
      if comp val next then next :: unguarded_linear_insert val rest
      else val :: rprefix
  end.

Definition insertion_step (prefix : list A) (val : A) : list A :=
  match prefix with
  | [] => [val]
  | first :: _ =>
      if comp val first then val :: prefix
      else rev (unguarded_linear_insert val (rev prefix))
  end.

Definition sort (l : list A) : list A := fold_left insertion_step l [].

End Sort.

(** [_S_threshold] of [stl_algo.h]: on at most that many elements
    [std::sort] is [__insertion_sort] alone. *)
Definition S_threshold : nat := 16.

(** [vector::erase(begin() + index)] for an index in range. *)
Fixpoint erase {A : Type} (index : nat) (v : list A) {struct v} : list A :=
  match v, index with
  | [], _ => []
  | _ :: tl, O => tl
  | x :: tl, S i => x :: erase i tl
  end.

(** A binary [std::ifstream] that was opened: the bytes not yet extracted
    and whether the stream is still good. *)
Record ifstream := mkIfstream { pending : list byte; good : bool }.

(** [read(buf, n)]: the characters extracted and the stream afterwards.
    A stream that is not good extracts nothing; too few characters set
    the fail bit after extracting what is there. *)
Definition read (n : nat) (f : ifstream) : list byte * ifstream :=
  if good f then
    (firstn n (pending f),
     mkIfstream (skipn n (pending f)) (n <=? length (pending f))%nat)
  else ([], f).

(** The object whose representation was [buf] after a read stored
    [extracted] at its start. *)
Definition store (extracted buf : list byte) : list byte :=
  extracted ++ skipn (length extracted) buf.

(** A read into an initialised object of [length buf] bytes. *)
Definition read_into (buf : list byte) (f : ifstream) : list byte * ifstream :=
  let '(extracted, f') := read (length buf) f in (store extracted buf, f').

(** A read into an uninitialised object of [n] bytes, whose value is used
    afterwards: undefined unless all [n] bytes were extracted. *)
Definition read_uninit (n : nat) (f : ifstream) : option (list byte * ifstream) :=
  let '(extracted, f') := read n f in
  if good f' then Some (extracted, f') else None.

(** The file a path names: absent, or its bytes; and whether it can be
    opened for reading and for writing. *)
Record file := mkFile {
  contents : option (list byte);
  can_read : bool;
  can_write : bool }.

(** [std::ofstream] with [trunc], the writes, and [close]. *)
Definition write_file (data : list byte) (f : file) : file :=
  mkFile (Some data) (can_read f) (can_write f).

End Std.

(** Object representations. *)
Definition bytes_of_double (x : double) : list byte := le_split 8 (Double.bits x).
Definition double_of_bytes (b : list byte) : double := Double.of_bits (le_combine b).

Definition size_t : Type := Naive.word64.
Definition bytes_of_size_t (x : size_t) : list byte := le_split 8 (word.unsigned x).
Definition size_t_of_bytes (b : list byte) : size_t := word.of_Z (le_combine b).
(** [v.size()] *)
Definition size {A : Type} (v : list A) : size_t := word.of_Z (Z.of_nat (length v)).

#[global] Arguments bytes_of_double : simpl never.
#[global] Arguments double_of_bytes : simpl never.
#[global] Arguments bytes_of_size_t : simpl never.
#[global] Arguments size_t_of_bytes : simpl never.
#[global] Arguments size : simpl never.

(** ** set_points.cpp *)

(** Modelled from the spec: [parameters.hpp] is not among the sources; of
    the global [g_parameters] only the maximum diluent PpO2 is read. *)
Record Parameters := mkParameters { m_maxPpO2Diluent : double }.

(** The two parallel vectors of the class. *)
Record SetPoints := mkSetPoints {
  m_depths : list double;
  m_setPoints : list double }.

(** Modelled from the spec: [set_points.hpp] is not among the sources; the
    number of set points is the size of the depth vector, the bound every
    loop of [set_points.cpp] uses. *)
Definition nbOfSetPoints (s : SetPoints) : size_t := size (m_depths s).

(** The comparison handed to [std::sort]: by decreasing depth, then by
    decreasing set point. *)
Definition comp (a b : double * double) : bool :=
  if Double.eq (fst a) (fst b) then Double.gt (snd a) (snd b)
  else Double.gt (fst a) (fst b).

(** The loop that pairs [m_depths[i]] with [m_setPoints[i]] for every index
    of [m_depths]. *)
Fixpoint depthSetpoints (depths setPoints : list double)
  : option (list (double * double)) :=
  match depths with
  | [] => Some []
  | d :: depths' =>
      match setPoints with
      | [] => None
      | sp :: setPoints' =>
          rest <- depthSetpoints depths' setPoints';;
          Some ((d, sp) :: rest)
      end
  end.

Definition sortSetPoints (s : SetPoints) : option SetPoints :=
  pairs <- depthSetpoints (m_depths s) (m_setPoints s);;
  let sorted := Std.sort comp pairs in
  Some (mkSetPoints (map fst sorted) (map snd sorted)).

(** The [return] statement that ends a call of [getSetPointAtDepth]. *)
Inductive Return :=
| ReturnDefault
| ReturnCaseA
| ReturnCaseB
| ReturnCaseC (i : nat)
| ReturnFallback.

(** [m_depths.size() - 1], in [size_t] arithmetic, as an index. *)
Definition last_index (s : SetPoints) : nat :=
  Z.to_nat (word.unsigned (word.sub (size (m_depths s)) (word.of_Z 1))).

(** The loop of case C, from index [i], with [iters] iterations left. *)
Fixpoint scan (depth : double) (s : SetPoints) (i iters : nat)
  : option (option (nat * double)) :=
  match iters with
  | O => Some None
  | S iters' =>
      di <- nth_error (m_depths s) i;;
      if Double.lt depth di then
        di1 <- nth_error (m_depths s) (i + 1);;
        if Double.ge depth di1 then
          sp <- nth_error (m_setPoints s) i;;
          Some (Some (i, sp))
        else scan depth s (S i) iters'
      else scan depth s (S i) iters'
  end.

(** [getSetPointAtDepth], with the vectors as the call leaves them, the
    value returned and the statement that returned it. *)
Definition getSetPointAtDepth_return (g_parameters : Parameters)
    (depth : double) (boosted : bool) (s : SetPoints)
  : option (SetPoints * (Return * double)) :=
  s <- sortSetPoints s;;
  match m_depths s with
  | [] => Some (s, (ReturnDefault, m_maxPpO2Diluent g_parameters))
  | _ :: _ =>
      d0 <- nth_error (m_depths s) 0;;
      if Double.ge depth d0 || negb boosted then
        sp0 <- nth_error (m_setPoints s) 0;;
        Some (s, (ReturnCaseA, sp0))
      else
        dl <- nth_error (m_depths s) (last_index s);;
        if Double.lt depth dl then
          spl <- nth_error (m_setPoints s) (last_index s);;
          Some (s, (ReturnCaseB, spl))
        else
          found <- scan depth s 0 (last_index s);;
          match found with
          | Some (i, sp) => Some (s, (ReturnCaseC i, sp))
          | None =>
              sp0 <- nth_error (m_setPoints s) 0;;
              Some (s, (ReturnFallback, sp0))
          end
  end.

Definition getSetPointAtDepth (g_parameters : Parameters)
    (depth : double) (boosted : bool) (s : SetPoints)
  : option (SetPoints * double) :=
  '(s', (_, setpoint)) <- getSetPointAtDepth_return g_parameters depth boosted s;;
  Some (s', setpoint).

Definition addSetPoint (depth setpoint : double) (s : SetPoints)
  : option SetPoints :=
  sortSetPoints (mkSetPoints (m_depths s ++ [depth]) (m_setPoints s ++ [setpoint])).

Definition removeSetPoint (index : nat) (s : SetPoints) : option SetPoints :=
  if (index <? length (m_depths s))%nat then
    if (index <? length (m_setPoints s))%nat then
      Some (mkSetPoints (Std.erase index (m_depths s))
                        (Std.erase index (m_setPoints s)))
    else None
  else Some s.

Definition setToDefault (s : SetPoints) : option SetPoints :=
  s <- addSetPoint (Double.lit 1000.0) (Double.lit 1.3) s;;
  s <- addSetPoint (Double.lit 40.0) (Double.lit 1.4) s;;
  s <- addSetPoint (Double.lit 21.0) (Double.lit 1.5) s;;
  addSetPoint (Double.lit 6.0) (Double.lit 1.6) s.

(** The write loop of [saveSetPointsToFile], from index [i]. *)
Fixpoint write_setpoints (s : SetPoints) (i iters : nat) : option (list byte) :=
  match iters with
  | O => Some []
  | S iters' =>
      d <- nth_error (m_depths s) i;;
      sp <- nth_error (m_setPoints s) i;;
      rest <- write_setpoints s (S i) iters';;
      Some (bytes_of_double d ++ bytes_of_double sp ++ rest)
  end.

(** The result and the file afterwards.  The writes are not checked; the
    file exists once it was opened, so the final test succeeds. *)
Definition saveSetPointsToFile (s : SetPoints) (f : Std.file)
  : option (bool * Std.file) :=
  if Std.can_write f then
    let count := nbOfSetPoints s in
    body <- write_setpoints s 0 (Z.to_nat (word.unsigned count));;
    Some (true, Std.write_file (bytes_of_size_t count ++ body) f)
  else Some (false, f).

(** The read loop of [loadSetPointsFromFile]: [depth] and [setpoint] are
    not initialised before they are read. *)
Fixpoint read_setpoints (iters : nat) (f : Std.ifstream) (s : SetPoints)
  : option (SetPoints * Std.ifstream) :=
  match iters with
  | O => Some (s, f)
  | S iters' =>
      '(depth, f) <- Std.read_uninit 8 f;;
      '(setpoint, f) <- Std.read_uninit 8 f;;
      read_setpoints iters' f
        (mkSetPoints (m_depths s ++ [double_of_bytes depth])
                     (m_setPoints s ++ [double_of_bytes setpoint]))
  end.

(** The result, the vectors and the file afterwards.  [read] does not
    throw (no exception mask is set), so the handler is not entered. *)
Definition loadSetPointsFromFile (s : SetPoints) (f : Std.file)
  : option (bool * SetPoints * Std.file) :=
  let s := mkSetPoints [] [] in
  match Std.contents f with
  | Some data =>
      if Std.can_read f then
        '(count, file) <- Std.read_uninit 8 (Std.mkIfstream data true);;
        let count := size_t_of_bytes count in
        '(s, _) <- read_setpoints (Z.to_nat (word.unsigned count)) file s;;
        s <- match m_depths s with
             | [] => setToDefault s
             | _ :: _ => Some s
             end;;
        Some (true, s, f)
      else Some (false, s, f)
  | None =>
      s <- setToDefault s;;
      '(_, f) <- saveSetPointsToFile s f;;
      Some (false, s, f)
  end.

(** The constructor: after a load that returned [false] only
    [m_setPoints] is cleared before the defaults are added. *)
Definition SetPoints_new (f : Std.file) : option (SetPoints * Std.file) :=
  '(loaded, s, f) <- loadSetPointsFromFile (mkSetPoints [] []) f;;
  s <- (if loaded then Some s
        else setToDefault (mkSetPoints (m_depths s) []));;
  s <- sortSetPoints s;;
  Some (s, f).

(** ** gaslist.cpp *)

(** [enum class GasType] and [enum class GasStatus], each stored as an
    [int]. *)
Definition GasType : Type := Naive.word32.
Definition GasStatus : Type := Naive.word32.
Definition bytes_of_enum (x : Naive.word32) : list byte := le_split 4 (word.unsigned x).
Definition enum_of_bytes (b : list byte) : Naive.word32 := word.of_Z (le_combine b).

#[global] Arguments bytes_of_enum : simpl never.
#[global] Arguments enum_of_bytes : simpl never.

(** Modelled from the spec: [gas.hpp] is not among the sources; a gas is
    its O2 and He percentages, its type and its status (what else the
    spec lists is derived from them), and its constructor stores the four
    arguments. *)
Record Gas := mkGas {
  m_o2Percent : double;
  m_hePercent : double;
  m_gasType : GasType;
  m_gasStatus : GasStatus }.

Section GasList.

(** [enum.hpp] is not among the sources: the two enumerators the code
    names are parameters.  So is [max_size], the largest count that
    [gases.reserve] accepts: for a greater count [reserve] throws, a
    [std::length_error] beyond the [max_size()] of [std::vector<Gas>]
    (which depends on the size of a [Gas]) and a [std::bad_alloc] beyond
    the memory there is, so [max_size] is [max_size()] where memory
    allows and less where it does not. *)
Variables (BOTTOM : GasType) (ACTIVE : GasStatus) (max_size : Z).

Definition addGas (o2Percent hePercent : double) (gasType : GasType)
    (gasStatus : GasStatus) (gases : list Gas) : list Gas :=
  gases ++ [mkGas o2Percent hePercent gasType gasStatus].

Definition bytes_of_gas (gas : Gas) : list byte :=
  bytes_of_double (m_o2Percent gas) ++ bytes_of_double (m_hePercent gas) ++
  bytes_of_enum (m_gasType gas) ++ bytes_of_enum (m_gasStatus gas).

(** The result and the file afterwards. *)
Definition saveGaslistToFile (gases : list Gas) (f : Std.file) : bool * Std.file :=
  if Std.can_write f then
    let gasCount := size gases in
    (true, Std.write_file (bytes_of_size_t gasCount ++ flat_map bytes_of_gas gases) f)
  else (false, f).

(** The read loop of [loadGaslistFromFile]: the four variables are
    initialised before they are read. *)
Fixpoint read_gases (iters : nat) (f : Std.ifstream) (gases : list Gas) : list Gas :=
  match iters with
  | O => gases
  | S iters' =>
      let '(o2Percent, f) := Std.read_into (bytes_of_double (Double.lit 0.0)) f in
      let '(hePercent, f) := Std.read_into (bytes_of_double (Double.lit 0.0)) f in
      let '(gasType, f) := Std.read_into (bytes_of_enum BOTTOM) f in
      let '(gasStatus, f) := Std.read_into (bytes_of_enum ACTIVE) f in
      read_gases iters' f
        (addGas (double_of_bytes o2Percent) (double_of_bytes hePercent)
                (enum_of_bytes gasType) (enum_of_bytes gasStatus) gases)
  end.

(** The result, the vector and the file afterwards.  The handler, which
    catches every [std::exception], is entered when [reserve] throws:
    [std::length_error] or [std::bad_alloc], for a count greater than
    [max_size]. *)
Definition loadGaslistFromFile (gases : list Gas) (f : Std.file)
  : bool * list Gas * Std.file :=
  match Std.contents f with
  | Some data =>
      if Std.can_read f then
        let gases := [] in
        let '(gasCount, file) :=
          Std.read_into (bytes_of_size_t (word.of_Z 0)) (Std.mkIfstream data true) in
        let gasCount := size_t_of_bytes gasCount in
        if max_size <? word.unsigned gasCount then (false, gases, f)
        else (true, read_gases (Z.to_nat (word.unsigned gasCount)) file gases, f)
      else (false, gases, f)
  | None =>
      let gases :=
        match gases with
        | [] => addGas (Double.lit 21.0) (Double.lit 0.0) BOTTOM ACTIVE gases
        | _ :: _ => gases
        end in
      let '(_, f) := saveGaslistToFile gases f in
      (false, gases, f)
  end.

(** The constructor. *)
Definition GasList_new (f : Std.file) : list Gas * Std.file :=
  let '(_, gases, f) := loadGaslistFromFile [] f in (gases, f).

End GasList.

(** ** The delete handlers of [DivePlanWindow] *)

Definition int : Type := Naive.word32.
(** [static_cast<int>] of a [size_t], and the conversion of an [int]
    argument to a [size_t] parameter. *)
Definition int_of_size_t (n : size_t) : int := word.of_Z (word.unsigned n).
Definition size_t_of_int (i : int) : size_t := word.of_Z (word.signed i).

(** [deleteSetpoint] on the set points of the plan and their file.
    Modelled from the spec: [dive_plan.cpp] is not among the sources; the
    recalculation of the plan that follows reads the set points and the
    stop steps and leaves them as they are (spec section 5). *)
Definition deleteSetpoint (row : int) (s : SetPoints) (f : Std.file)
  : option (SetPoints * Std.file) :=
  if (word.signed row <? 0) ||
     (word.signed (int_of_size_t (nbOfSetPoints s)) <=? word.signed row)
  then Some (s, f)
  else if 1 <? word.unsigned (nbOfSetPoints s) then
    s <- removeSetPoint (Z.to_nat (word.unsigned (size_t_of_int row))) s;;
    '(_, f) <- saveSetPointsToFile s f;;
    Some (s, f)
  else Some (s, f).

(** The set points as the constructor of [DivePlanWindow] loads them:
    after a load that returned [false] and left no entry it adds the
    entry (0, 0.7) and saves. *)
Definition DivePlanWindow_loadSetPoints (s : SetPoints) (f : Std.file)
  : option (SetPoints * Std.file) :=
  '(loaded, s, f) <- loadSetPointsFromFile s f;;
  '(s, f) <-
    (if negb loaded && (word.unsigned (nbOfSetPoints s) =? 0) then
       s <- addSetPoint (Double.lit 0.0) (Double.lit 0.7) s;;
       '(_, f) <- saveSetPointsToFile s f;;
       Some (s, f)
     else Some (s, f));;
  s <- sortSetPoints s;;
  Some (s, f).

(** One entry of [m_stopSteps]. *)
Record StopStep := mkStopStep { m_depth : double; m_time : double }.

(** What [deleteStopStep] reads and writes of the window. *)
Record StopStepsState := mkStopStepsState {
  m_isUpdating : bool;
  m_stopSteps : list StopStep }.

(** Modelled from the spec: [stop_steps.hpp] is not among the sources; the
    number of stop steps is the number of entries of the sequence. *)
Definition nbOfStopSteps (steps : list StopStep) : Z := Z.of_nat (length steps).

Section StopSteps.

(** [StopSteps::removeStopStep] is not among the sources: a parameter. *)
Variable removeStopStep : int -> list StopStep -> list StopStep.

Definition deleteStopStep (row : int) (w : StopStepsState) : StopStepsState :=
  if m_isUpdating w then w
  else
    let w := mkStopStepsState true (m_stopSteps w) in
    let w :=
      if 1 <? nbOfStopSteps (m_stopSteps w)
      then mkStopStepsState (m_isUpdating w) (removeStopStep row (m_stopSteps w))
      else w in
    mkStopStepsState false (m_stopSteps w).

End StopSteps.

(** The handlers applied to the rows of a sequence of clicks. *)
Fixpoint deleteSetpoints (rows : list int) (s : SetPoints) (f : Std.file)
  : option (SetPoints * Std.file) :=
  match rows with
  | [] => Some (s, f)
  | row :: rows' =>
      '(s, f) <- deleteSetpoint row s f;;
      deleteSetpoints rows' s f
  end.

Definition deleteStopSteps (removeStopStep : int -> list StopStep -> list StopStep)
    (rows : list int) (w : StopStepsState) : StopStepsState :=
  fold_left (fun w row => deleteStopStep removeStopStep row w) rows w.

(** A [removeStopStep] in the manner of [removeSetPoint], for examples. *)
Definition removeStopStep_erase (row : int) (steps : list StopStep) : list StopStep :=
  if (word.unsigned (size_t_of_int row) <? Z.of_nat (length steps))
  then Std.erase (Z.to_nat (word.unsigned (size_t_of_int row))) steps
  else steps.

(** ** Vocabulary of the properties *)

(** A state the class can be in: two vectors of one size, a size that a
    [size_t] holds. *)
Definition well_formed (s : SetPoints) : Prop :=
  length (m_depths s) = length (m_setPoints s) /\
  Z.of_nat (length (m_depths s)) < 2 ^ 64.

(** The bytes [saveSetPointsToFile] writes for one entry. *)
Definition bytes_of_entry (e : double * double) : list byte :=
  bytes_of_double (fst e) ++ bytes_of_double (snd e).

(** The entries of a state, as pairs. *)
Definition entries (s : SetPoints) : list (double * double) :=
  combine (m_depths s) (m_setPoints s).

Definition is_number (x : double) : Prop := Double.is_nan x = false.

(** The state [sortSetPoints] leaves when the vectors have one size. *)
Definition sorted_state (s : SetPoints) : SetPoints :=
  mkSetPoints (map fst (Std.sort comp (entries s)))
              (map snd (Std.sort comp (entries s))).

(** The order the specification gives for two adjacent entries. *)
Definition in_order (a b : double * double) : bool :=
  Double.gt (fst a) (fst b) ||
  (Double.eq (fst a) (fst b) && Double.ge (snd a) (snd b)).

(** [depths[i] > depths[i+1]], or [depths[i] == depths[i+1]] and
    [setpoints[i] >= setpoints[i+1]], at every adjacent pair of indices. *)
Definition sort_order (s : SetPoints) : Prop :=
  forall i d d' sp sp',
    nth_error (m_depths s) i = Some d -> nth_error (m_depths s) (S i) = Some d' ->
    nth_error (m_setPoints s) i = Some sp -> nth_error (m_setPoints s) (S i) = Some sp' ->
    in_order (d, sp) (d', sp') = true.


(** The test of the loop of case C at index [i]. *)
Definition between (depth : double) (depths : list double) (i : nat) : Prop :=
  exists d d', nth_error depths i = Some d /\ nth_error depths (S i) = Some d' /\
               Double.lt depth d = true /\ Double.ge depth d' = true.

(** The four default entries and the default gas. *)
Definition default_setpoints : SetPoints :=
  mkSetPoints
    [Double.lit 1000.0; Double.lit 40.0; Double.lit 21.0; Double.lit 6.0]
    [Double.lit 1.3; Double.lit 1.4; Double.lit 1.5; Double.lit 1.6].

Definition default_gas (BOTTOM : GasType) (ACTIVE : GasStatus) : Gas :=
  mkGas (Double.lit 21.0) (Double.lit 0.0) BOTTOM ACTIVE.

(** States, parameters and files of the examples. *)
Definition example_parameters : Parameters := mkParameters (Double.lit 0.7).

Definition example_setpoints : SetPoints :=
  mkSetPoints
    [Double.lit 6.0; Double.lit 1000.0; Double.lit 21.0; Double.lit 40.0]
    [Double.lit 1.6; Double.lit 1.3; Double.lit 1.5; Double.lit 1.4].

Definition single_setpoint : SetPoints :=
  mkSetPoints [Double.lit 10.0] [Double.lit 1.3].

Definition nan_setpoints : SetPoints :=
  mkSetPoints [Double.lit nan; Double.lit 5.0] [Double.lit 1.3; Double.lit 1.3].

Definition nan_first_setpoints : SetPoints :=
  mkSetPoints [Double.lit nan; Double.lit 10.0] [Double.lit 1.3; Double.lit 1.6].

Definition nan_last_setpoints : SetPoints :=
  mkSetPoints [Double.lit 10.0; Double.lit nan] [Double.lit 1.6; Double.lit 1.3].

Definition no_setpoints : SetPoints := mkSetPoints [] [].

Definition missing_file : Std.file := Std.mkFile None true true.
Definition locked_file : Std.file := Std.mkFile (Some []) false true.

(** ** More of [gaslist.cpp] and of the windows *)

(** [v[index] = x] for an index in range. *)
Fixpoint vector_assign {A : Type} (index : nat) (x : A) (v : list A) {struct v}
  : list A :=
  match v, index with
  | [], _ => []
  | _ :: tl, O => x :: tl
  | y :: tl, S i => y :: vector_assign i x tl
  end.

(** [GasList::editGas]: [gases[index]] is not guarded. *)
Definition editGas (index : int) (o2Percent hePercent : double)
    (gasType : GasType) (gasStatus : GasStatus) (gases : list Gas)
  : option (list Gas) :=
  let i := Z.to_nat (word.unsigned (size_t_of_int index)) in
  if (i <? length gases)%nat
  then Some (vector_assign i (mkGas o2Percent hePercent gasType gasStatus) gases)
  else None.

(** [GasList::deleteGas]: [gases.erase(gases.begin() + index)] is not
    guarded. *)
Definition deleteGas (index : int) (gases : list Gas) : option (list Gas) :=
  if (0 <=? word.signed index) && (word.signed index <? Z.of_nat (length gases))
  then Some (Std.erase (Z.to_nat (word.signed index)) gases)
  else None.

(** [Qt::Checked] *)
Definition Qt_Checked : int := word.of_Z 2.

Section GasListWindow.

(** The enumerators of [enum.hpp], as before. *)
Variables (BOTTOM : GasType) (ACTIVE INACTIVE : GasStatus).



Definition gasTypeChanged (row index : int) (gases : list Gas) (f : Std.file)
  : option (list Gas * Std.file) :=
  let gasType : GasType := index in
  if (0 <=? word.signed row) &&
     (word.signed row <? word.signed (int_of_size_t (size gases))) then
    gas <- nth_error gases (Z.to_nat (word.unsigned (size_t_of_int row)));;
    gases <- editGas row (m_o2Percent gas) (m_hePercent gas) gasType
               (m_gasStatus gas) gases;;
    let '(_, f) := saveGaslistToFile gases f in
    Some (gases, f)
  else Some (gases, f).

Definition gasStatusChanged (row state : int) (gases : list Gas) (f : Std.file)
  : option (list Gas * Std.file) :=
  let gasStatus := if word.eqb state Qt_Checked then ACTIVE else INACTIVE in
  if (0 <=? word.signed row) &&
     (word.signed row <? word.signed (int_of_size_t (size gases))) then
    gas <- nth_error gases (Z.to_nat (word.unsigned (size_t_of_int row)));;
    gases <- editGas row (m_o2Percent gas) (m_hePercent gas) (m_gasType gas)
               gasStatus gases;;
    let '(_, f) := saveGaslistToFile gases f in
    Some (gases, f)
  else Some (gases, f).

End GasListWindow.

Section SetpointsTable.

(** The column numbers of the set point table, 0 and 1 in
    [dive_plan_gui.hpp]: the handler is modelled for any two column
    numbers. *)
Variables (SP_COL_DEPTH SP_COL_SETPOINT : int).

(** [setpointCellChanged]: [item] is the cell, absent or with the outcome
    of [text().toDouble(&ok)]. *)
Definition setpointCellChanged (row column : int) (item : option (bool * double))
    (s : SetPoints) (f : Std.file) : option (SetPoints * Std.file) :=
  if word.eqb column SP_COL_DEPTH || word.eqb column SP_COL_SETPOINT then
    match item with
    | None => Some (s, f)
    | Some (ok, value) =>
        if ok then
          if (word.signed row <? 0) ||
             (word.signed (int_of_size_t (nbOfSetPoints s)) <=? word.signed row)
          then Some (s, f)
          else
            let i := Z.to_nat (word.unsigned (size_t_of_int row)) in
            depth <- nth_error (m_depths s) i;;
            setpoint <- nth_error (m_setPoints s) i;;
            let depth := if word.eqb column SP_COL_DEPTH then value else depth in
            let setpoint :=
              if word.eqb column SP_COL_DEPTH then setpoint else value in
            s <- sortSetPoints
                   (mkSetPoints (vector_assign i depth (m_depths s))
                                (vector_assign i setpoint (m_setPoints s)));;
            '(_, f) <- saveSetPointsToFile s f;;
            Some (s, f)
        else Some (s, f)
    end
  else Some (s, f).

End SetpointsTable.

(** [addSetpoint]: [isUpdating] is the function's static flag. *)
Definition addSetpoint (isUpdating : bool) (s : SetPoints) (f : Std.file)
  : option (bool * SetPoints * Std.file) :=
  if isUpdating then Some (isUpdating, s, f)
  else
    '(lastDepth, lastSetpoint) <-
      (if 0 <? word.unsigned (nbOfSetPoints s) then
         d <- nth_error (m_depths s) 0;;
         sp <- nth_error (m_setPoints s) 0;;
         Some (d, sp)
       else Some (Double.lit 0.0, Double.lit 0.7));;
    s <- addSetPoint lastDepth lastSetpoint s;;
    '(_, f) <- saveSetPointsToFile s f;;
    Some (false, s, f).

(** Whether [refreshSetpointsTable] and [refreshStopStepsTable] put a
    delete button in row [i]. *)
Definition setpoint_delete_button (s : SetPoints) (i : int) : bool :=
  (1 <? word.unsigned (nbOfSetPoints s)) ||
  (word.signed i <?
   word.signed (word.sub (int_of_size_t (nbOfSetPoints s)) (word.of_Z 1))).

Definition stopstep_delete_button (steps : list StopStep) (i : int) : bool :=
  (1 <? nbOfStopSteps steps) || (word.signed i <? nbOfStopSteps steps - 1).

(** The bytes of a file that holds a list. *)
Definition setpoints_file (s : SetPoints) : list byte :=
  bytes_of_size_t (nbOfSetPoints s) ++ flat_map bytes_of_entry (entries s).

Definition gaslist_file (gases : list Gas) : list byte :=
  bytes_of_size_t (size gases) ++ flat_map bytes_of_gas gases.

(** The gas [loadGaslistFromFile] adds when nothing could be read. *)
Definition unread_gas (BOTTOM : GasType) (ACTIVE : GasStatus) : Gas :=
  mkGas (Double.lit 0.0) (Double.lit 0.0) BOTTOM ACTIVE.

(** A file that can be opened both ways. *)
Definition accessible (f : Std.file) : Prop :=
  Std.can_read f = true /\ Std.can_write f = true.


(** * Properties *)

(** ** The order of doubles *)

Section DoubleOrder.
Import Double.

Lemma compare_numbers a b :
  is_nan a = false -> is_nan b = false ->
  compare a b = Some (ord_key a ?= ord_key b).
Proof. intros Ha Hb. unfold compare. rewrite Ha, Hb. reflexivity. Qed.

Lemma compare_some a b c :
  compare a b = Some c ->
  is_nan a = false /\ is_nan b = false /\ c = (ord_key a ?= ord_key b).
Proof.
  unfold compare. destruct (is_nan a), (is_nan b); simpl; try discriminate.
  intros [= <-]. auto.
Qed.

Lemma lt_true a b :
  lt a b = true -> is_nan a = false /\ is_nan b = false /\ ord_key a < ord_key b.
Proof.
  unfold lt. destruct (compare a b) as [c|] eqn:E; try discriminate.
  apply compare_some in E as (Ha & Hb & ->).
  destruct (Z.compare_spec (ord_key a) (ord_key b)); try discriminate. auto.
Qed.

Lemma le_true a b :
  le a b = true -> is_nan a = false /\ is_nan b = false /\ ord_key a <= ord_key b.
Proof.
  unfold le. destruct (compare a b) as [c|] eqn:E; try discriminate.
  apply compare_some in E as (Ha & Hb & ->).
  destruct (Z.compare_spec (ord_key a) (ord_key b)); try discriminate;
    repeat split; auto; lia.
Qed.

Lemma eq_true a b :
  eq a b = true -> is_nan a = false /\ is_nan b = false /\ ord_key a = ord_key b.
Proof.
  unfold eq. destruct (compare a b) as [c|] eqn:E; try discriminate.
  apply compare_some in E as (Ha & Hb & ->).
  destruct (Z.compare_spec (ord_key a) (ord_key b)); try discriminate. auto.
Qed.

Lemma lt_numbers a b :
  is_nan a = false -> is_nan b = false -> lt a b = (ord_key a <? ord_key b).
Proof.
  intros Ha Hb. unfold lt. rewrite compare_numbers by assumption.
  rewrite Z.ltb_compare. destruct (ord_key a ?= ord_key b); reflexivity.
Qed.

Lemma le_numbers a b :
  is_nan a = false -> is_nan b = false -> le a b = (ord_key a <=? ord_key b).
Proof.
  intros Ha Hb. unfold le. rewrite compare_numbers by assumption.
  rewrite Z.leb_compare. destruct (ord_key a ?= ord_key b); reflexivity.
Qed.

Lemma eq_numbers a b :
  is_nan a = false -> is_nan b = false -> eq a b = (ord_key a =? ord_key b).
Proof.
  intros Ha Hb. unfold eq. rewrite compare_numbers by assumption.
  rewrite Z.eqb_compare. destruct (ord_key a ?= ord_key b); reflexivity.
Qed.

(** Two numbers are comparable: [!(a < b)] gives [a >= b]. *)
Lemma not_lt_ge a b :
  is_nan a = false -> is_nan b = false -> lt a b = false -> ge a b = true.
Proof.
  intros Ha Hb. unfold ge. rewrite lt_numbers, le_numbers by assumption. lia.
Qed.

Lemma not_ge_lt a b :
  is_nan a = false -> is_nan b = false -> ge a b = false -> lt a b = true.
Proof.
  intros Ha Hb. unfold ge. rewrite lt_numbers, le_numbers by assumption. lia.
Qed.

Lemma lt_not_ge a b : lt a b = true -> ge a b = false.
Proof.
  intros (Ha & Hb & H)%lt_true. unfold ge. rewrite le_numbers by assumption. lia.
Qed.

Lemma ge_trans a b c : ge a b = true -> ge b c = true -> ge a c = true.
Proof.
  unfold ge. intros (? & ? & ?)%le_true (? & ? & ?)%le_true.
  rewrite le_numbers by assumption. lia.
Qed.


Lemma ge_refl a : is_nan a = false -> ge a a = true.
Proof. intros Ha. unfold ge. rewrite le_numbers by assumption. lia. Qed.

End DoubleOrder.

(** ** The order of doubles and the IEEE comparison *)

Section DoubleSpec.
Import Double.

Lemma magnitude_range x : 0 <= magnitude x < 2 ^ 63.
Proof.
  unfold magnitude. rewrite Z.land_ones by lia. apply Z.mod_pos_bound. lia.
Qed.

Lemma to_SF_cases x :
  let m := magnitude x in
  (m = 0 /\ to_SF x = S754_zero (sign x)) \/
  (0 < m < 2047 * 2 ^ 52 /\
   exists M E, to_SF x = S754_finite (sign x) (Z.to_pos M) E /\
               0 < M < 2 ^ 53 /\ -1074 <= E /\ (-1074 < E -> 2 ^ 52 <= M) /\
               m = (E + 1074) * 2 ^ 52 + M) \/
  (m = 2047 * 2 ^ 52 /\ to_SF x = S754_infinity (sign x)) \/
  (2047 * 2 ^ 52 < m /\ to_SF x = S754_nan).
Proof.
  intros m. pose proof (magnitude_range x) as Hm. fold m in Hm.
  unfold to_SF. fold m.
  rewrite Z.shiftr_div_pow2, Z.land_ones by lia.
  pose proof (Z.div_mod m (2 ^ 52) ltac:(lia)) as Hdm.
  pose proof (Z.mod_pos_bound m (2 ^ 52) ltac:(lia)) as Hf.
  set (e := m / 2 ^ 52) in *. set (f := m mod 2 ^ 52) in *.
  assert (He : 0 <= e < 2048) by lia.
  destruct (Z.eqb_spec e 0) as [E0|E0].
  - destruct (Z.eqb_spec f 0) as [F0|F0].
    + left. split; [lia | reflexivity].
    + right. left. split; [lia|]. exists f, (-1074).
      split; [reflexivity|]. lia.
  - destruct (Z.eqb_spec e 2047) as [E1|E1].
    + destruct (Z.eqb_spec f 0) as [F0|F0].
      * right. right. left. split; [lia | reflexivity].
      * right. right. right. split; [lia | reflexivity].
    + right. left. split; [lia|]. exists (2 ^ 52 + f), (e - 1075).
      split; [reflexivity|]. lia.
Qed.

Ltac compare_by_lia :=
  match goal with
  | |- (_ ?= _) = Lt => apply Z.compare_lt_iff; lia
  | |- (_ ?= _) = Gt => apply Z.compare_gt_iff; lia
  | |- (_ ?= _) = Eq => apply Z.compare_eq_iff; lia
  end.

(** The comparison of two bit patterns is the IEEE comparison, as the
    standard library specifies it, of the values they denote. *)
Lemma compare_SFcompare a b : compare a b = SFcompare (to_SF a) (to_SF b).
Proof.
  unfold compare, is_nan, ord_key.
  destruct (to_SF_cases a) as [[Ha ->]|[[Ha (Ma & Ea & -> & HMa & HEa & HNa & Hma)]|[[Ha ->]|[Ha ->]]]];
  destruct (to_SF_cases b) as [[Hb ->]|[[Hb (Mb & Eb & -> & HMb & HEb & HNb & Hmb)]|[[Hb ->]|[Hb ->]]]];
  cbv zeta in *;
  repeat match goal with
  | |- context [?c <? magnitude ?x] =>
      let H := fresh in
      destruct (Z.ltb_spec c (magnitude x)) as [H|H]; try (exfalso; lia); clear H
  end;
  cbn [orb SFcompare]; try reflexivity;
  destruct (sign a), (sign b); cbn [SFcompare]; f_equal; try compare_by_lia.
  all: change (Pos.compare_cont Eq ?p ?q) with (Pos.compare p q);
    rewrite <- (Z2Pos.inj_compare Ma Mb) by lia;
    destruct (Z.compare_spec Ea Eb), (Z.compare_spec Ma Mb); cbn [CompOpp];
    compare_by_lia.
Qed.

Lemma lt_SFltb a b : lt a b = SFltb (to_SF a) (to_SF b).
Proof. unfold lt, SFltb. now rewrite compare_SFcompare. Qed.

Lemma le_SFleb a b : le a b = SFleb (to_SF a) (to_SF b).
Proof. unfold le, SFleb. now rewrite compare_SFcompare. Qed.

Lemma eq_SFeqb a b : eq a b = SFeqb (to_SF a) (to_SF b).
Proof. unfold eq, SFeqb. now rewrite compare_SFcompare. Qed.

End DoubleSpec.

(** The literals of the source denote the values written. *)
Example lit_values :
  map Double.to_SF
    [Double.lit 1000.0; Double.lit 40.0; Double.lit 21.0; Double.lit 6.0;
     Double.lit 1.3; Double.lit 1.4; Double.lit 1.5; Double.lit 1.6;
     Double.lit 0.0; Double.lit nan]
  = map Prim2SF [1000.0; 40.0; 21.0; 6.0; 1.3; 1.4; 1.5; 1.6; 0.0; nan]%float.
Proof. vm_compute. reflexivity. Qed.

Example lit_bits :
  map Double.bits
    [Double.lit 1000.0; Double.lit 40.0; Double.lit 21.0; Double.lit 6.0;
     Double.lit 1.3; Double.lit 1.4; Double.lit 1.5; Double.lit 1.6]
  = [0x408f400000000000; 0x4044000000000000; 0x4035000000000000;
     0x4018000000000000; 0x3ff4cccccccccccd; 0x3ff6666666666666;
     0x3ff8000000000000; 0x3ff999999999999a].
Proof. vm_compute. reflexivity. Qed.

(** A NaN is unordered, the two zeros are equal, the infinities are the
    ends of the order. *)
Example compare_values :
  Double.lt (Double.lit nan) (Double.lit 1.0) = false /\
  Double.ge (Double.lit nan) (Double.lit 1.0) = false /\
  Double.eq (Double.lit nan) (Double.lit nan) = false /\
  Double.eq (Double.lit (-0.0)) (Double.lit 0.0) = true /\
  Double.lt (Double.lit (-0.0)) (Double.lit 0.0) = false /\
  Double.lt (Double.lit neg_infinity) (Double.lit (-1000.0)) = true /\
  Double.lt (Double.lit 1000.0) (Double.lit infinity) = true /\
  Double.lt (Double.lit 1.3) (Double.lit 1.4) = true.
Proof. vm_compute. repeat split. Qed.

(** ** The insertion sort *)

Section SortPermutation.
Context {A : Type} (comp : A -> A -> bool).

Lemma unguarded_linear_insert_perm val rprefix :
  Permutation (val :: rprefix) (Std.unguarded_linear_insert comp val rprefix).
Proof.
  induction rprefix as [|next rest IH]; simpl; [reflexivity|].
  destruct (comp val next); [|reflexivity].
  rewrite perm_swap. now apply perm_skip.
Qed.

Lemma insertion_step_perm prefix val :
  Permutation (val :: prefix) (Std.insertion_step comp prefix val).
Proof.
  unfold Std.insertion_step. destruct prefix as [|first rest]; [reflexivity|].
  destruct (comp val first); [reflexivity|].
  rewrite <- Permutation_rev, <- unguarded_linear_insert_perm.
  apply perm_skip, Permutation_rev.
Qed.

Lemma fold_insertion_step_perm l : forall prefix,
  Permutation (prefix ++ l) (fold_left (Std.insertion_step comp) l prefix).
Proof.
  induction l as [|val l IH]; intros prefix; simpl.
  - now rewrite app_nil_r.
  - eapply Permutation_trans; [|apply IH].
    eapply Permutation_trans; [symmetry; apply Permutation_middle|].
    apply (Permutation_app_tail l (insertion_step_perm prefix val)).
Qed.

(** [std::sort] rearranges the range. *)
Lemma sort_perm l : Permutation l (Std.sort comp l).
Proof. apply (fold_insertion_step_perm l []). Qed.

Lemma sort_length l : length (Std.sort comp l) = length l.
Proof. symmetry. apply Permutation_length, sort_perm. Qed.

End SortPermutation.

Section SortSorted.
Context {A : Type} (comp : A -> A -> bool).
(** The elements on which [comp] decides the order [ord]: whichever
    of two of them [comp] does not put first may come second. *)
Context (P : A -> Prop) (ord : A -> A -> Prop).
Hypothesis comp_true : forall a b, P a -> P b -> comp a b = true -> ord a b.
Hypothesis comp_false : forall a b, P a -> P b -> comp a b = false -> ord b a.

Lemma Sorted_app_last (R : A -> A -> Prop) l a :
  Sorted R l -> HdRel (fun x y => R y x) a (rev l) -> Sorted R (l ++ [a]).
Proof.
  induction l as [|x l IH]; simpl; intros Hs Hh.
  - repeat constructor.
  - apply Sorted_inv in Hs as [Hs Hx]. constructor.
    + apply IH; [assumption|].
      destruct (rev l) as [|y r]; [constructor|].
      apply HdRel_inv in Hh. now constructor.
    + destruct l as [|y l]; simpl.
      * apply HdRel_inv in Hh. now constructor.
      * apply HdRel_inv in Hx. now constructor.
Qed.

Lemma Sorted_reverse (R : A -> A -> Prop) l :
  Sorted R l -> Sorted (fun x y => R y x) (rev l).
Proof.
  induction l as [|x l IH]; simpl; intros Hs; [constructor|].
  apply Sorted_inv in Hs as [Hs Hx].
  apply Sorted_app_last; [auto|]. now rewrite rev_involutive.
Qed.

Lemma unguarded_linear_insert_sorted val rprefix :
  P val -> Forall P rprefix -> Sorted (fun a b => ord b a) rprefix ->
  Sorted (fun a b => ord b a) (Std.unguarded_linear_insert comp val rprefix).
Proof.
  intros Hv. induction rprefix as [|next rest IH]; simpl; intros HP Hs.
  - repeat constructor.
  - apply Forall_cons_iff in HP as [Hn HP].
    destruct (comp val next) eqn:E.
    + apply Sorted_inv in Hs as [Hs Hh]. constructor; [auto|].
      destruct rest as [|next' rest']; simpl.
      * constructor. now apply comp_true.
      * destruct (comp val next'); constructor.
        -- now apply HdRel_inv in Hh.
        -- now apply comp_true.
    + constructor; [assumption|]. constructor. now apply comp_false.
Qed.

Lemma insertion_step_sorted prefix val :
  P val -> Forall P prefix -> Sorted ord prefix ->
  Sorted ord (Std.insertion_step comp prefix val).
Proof.
  intros Hv HP Hs. unfold Std.insertion_step.
  destruct prefix as [|first rest]; [repeat constructor|].
  destruct (comp val first) eqn:E.
  - constructor; [assumption|]. constructor.
    apply comp_true; auto. now apply Forall_inv in HP.
  - apply (Sorted_reverse (fun a b => ord b a)).
    apply unguarded_linear_insert_sorted; auto.
    + now apply Forall_rev.
    + now apply (Sorted_reverse ord).
Qed.

Lemma fold_insertion_step_sorted l : forall prefix,
  Forall P l -> Forall P prefix -> Sorted ord prefix ->
  Sorted ord (fold_left (Std.insertion_step comp) l prefix).
Proof.
  induction l as [|val l IH]; intros prefix Hl HP Hs; simpl; [assumption|].
  apply Forall_cons_iff in Hl as [Hv Hl].
  apply IH; auto.
  - eapply Permutation_Forall; [apply insertion_step_perm|]. now constructor.
  - now apply insertion_step_sorted.
Qed.

(** [std::sort] leaves every element in order with the next one. *)
Lemma sort_sorted l : Forall P l -> Sorted ord (Std.sort comp l).
Proof. intros Hl. apply fold_insertion_step_sorted; auto. Qed.

End SortSorted.

Lemma Sorted_nth_error {A : Type} (R : A -> A -> Prop) l :
  Sorted R l -> forall i x y,
  nth_error l i = Some x -> nth_error l (S i) = Some y -> R x y.
Proof.
  induction 1 as [|a l Hs IH Hh]; intros i x y Hx Hy.
  - destruct i; discriminate.
  - destruct i as [|i]; simpl in *.
    + injection Hx as <-. destruct l as [|b l]; [discriminate|].
      injection Hy as <-. now apply HdRel_inv in Hh.
    + eauto.
Qed.

(** ** The comparison of two entries *)

Section Comp.
Import Double.

Lemma comp_true_in_order a b : comp a b = true -> in_order a b = true.
Proof.
  unfold comp, in_order. destruct (eq (fst a) (fst b)) eqn:E; intros H.
  - apply lt_true in H as (? & ? & ?).
    unfold ge. rewrite le_numbers by assumption.
    apply orb_true_iff. right. simpl. lia.
  - now rewrite H.
Qed.

Lemma comp_false_in_order a b :
  is_nan (fst a) = false /\ is_nan (snd a) = false ->
  is_nan (fst b) = false /\ is_nan (snd b) = false ->
  comp a b = false -> in_order b a = true.
Proof.
  unfold comp, in_order, gt, ge. intros [Ha Ha'] [Hb Hb'].
  destruct (eq (fst a) (fst b)) eqn:E; intros H;
    rewrite ?lt_numbers, ?eq_numbers, ?le_numbers in * by assumption.
  - apply orb_true_iff. right. apply andb_true_iff. split; lia.
  - apply orb_true_iff. left. lia.
Qed.

Lemma comp_true_depth a b : comp a b = true -> ge (fst a) (fst b) = true.
Proof.
  unfold comp, ge. destruct (eq (fst a) (fst b)) eqn:E; intros H.
  - apply eq_true in E as (? & ? & ?). rewrite le_numbers by assumption. lia.
  - apply lt_true in H as (? & ? & ?). rewrite le_numbers by assumption. lia.
Qed.

Lemma comp_false_depth a b :
  is_nan (fst a) = false -> is_nan (fst b) = false ->
  comp a b = false -> ge (fst b) (fst a) = true.
Proof.
  unfold comp, gt, ge. intros Ha Hb.
  destruct (eq (fst a) (fst b)) eqn:E; intros H;
    rewrite ?lt_numbers, ?eq_numbers, ?le_numbers in * by assumption; lia.
Qed.

End Comp.

(** ** [sortSetPoints] *)

Lemma depthSetpoints_combine depths : forall setPoints,
  (length depths <= length setPoints)%nat ->
  depthSetpoints depths setPoints = Some (combine depths setPoints).
Proof.
  induction depths as [|d depths IH]; intros [|sp setPoints] H; simpl in *;
    try reflexivity; try lia.
  rewrite IH by lia. reflexivity.
Qed.

Lemma depthSetpoints_short depths : forall setPoints,
  (length setPoints < length depths)%nat -> depthSetpoints depths setPoints = None.
Proof.
  induction depths as [|d depths IH]; intros [|sp setPoints] H; simpl in *;
    try reflexivity; try lia.
  rewrite IH by lia. reflexivity.
Qed.

Lemma combine_fst_snd {A B : Type} (l : list (A * B)) :
  combine (map fst l) (map snd l) = l.
Proof. induction l as [|[a b] l IH]; simpl; congruence. Qed.

Lemma map_fst_combine {A B : Type} (l : list A) : forall (l' : list B),
  length l = length l' -> map fst (combine l l') = l.
Proof.
  induction l as [|a l IH]; intros [|b l'] H; simpl in *; try congruence.
  rewrite IH; congruence.
Qed.

Lemma map_snd_combine {A B : Type} (l : list A) : forall (l' : list B),
  length l = length l' -> map snd (combine l l') = l'.
Proof.
  induction l as [|a l IH]; intros [|b l'] H; simpl in *; try congruence.
  rewrite IH; congruence.
Qed.

Lemma nth_error_entries s i d sp :
  nth_error (m_depths s) i = Some d -> nth_error (m_setPoints s) i = Some sp ->
  nth_error (entries s) i = Some (d, sp).
Proof.
  unfold entries. destruct s as [depths setPoints]. simpl. revert setPoints i.
  induction depths as [|d0 depths IH]; intros [|sp0 setPoints] [|i]; simpl;
    try discriminate.
  - now intros [= ->] [= ->].
  - apply IH.
Qed.

Lemma sortSetPoints_sorted_state s :
  (length (m_depths s) <= length (m_setPoints s))%nat ->
  sortSetPoints s = Some (sorted_state s).
Proof.
  intros H. unfold sortSetPoints. now rewrite depthSetpoints_combine.
Qed.

(** With fewer set points than depths the loop reads [m_setPoints] out of
    range. *)
Lemma sortSetPoints_out_of_range s :
  (length (m_setPoints s) < length (m_depths s))%nat -> sortSetPoints s = None.
Proof.
  intros H. unfold sortSetPoints. now rewrite depthSetpoints_short.
Qed.

Lemma entries_sorted_state s : entries (sorted_state s) = Std.sort comp (entries s).
Proof. apply combine_fst_snd. Qed.

Lemma entries_length s :
  length (m_depths s) = length (m_setPoints s) ->
  length (entries s) = length (m_depths s).
Proof. intros H. unfold entries. rewrite length_combine. lia. Qed.

Lemma sorted_state_lengths s :
  length (m_depths s) = length (m_setPoints s) ->
  length (m_depths (sorted_state s)) = length (m_depths s) /\
  length (m_setPoints (sorted_state s)) = length (m_depths s).
Proof.
  intros H. simpl. rewrite !length_map, sort_length, entries_length; auto.
Qed.

Lemma sorted_state_well_formed s : well_formed s -> well_formed (sorted_state s).
Proof.
  intros [H Hs]. destruct (sorted_state_lengths s H) as [Hd Hp].
  split; [congruence|]. now rewrite Hd.
Qed.

Lemma sorted_state_depths s :
  length (m_depths s) = length (m_setPoints s) ->
  Permutation (m_depths s) (m_depths (sorted_state s)).
Proof.
  intros H. simpl. rewrite <- (map_fst_combine (m_depths s) (m_setPoints s) H) at 1.
  apply Permutation_map, sort_perm.
Qed.

Lemma Forall_entries (P Q : double -> Prop) s :
  Forall P (m_depths s) -> Forall Q (m_setPoints s) ->
  Forall (fun e => P (fst e) /\ Q (snd e)) (entries s).
Proof.
  unfold entries. destruct s as [depths setPoints]. simpl. revert setPoints.
  induction depths as [|d depths IH]; intros [|sp setPoints] Hd Hs; simpl;
    try constructor.
  - split; [now apply Forall_inv in Hd | now apply Forall_inv in Hs].
  - apply IH; [now apply Forall_inv_tail in Hd | now apply Forall_inv_tail in Hs].
Qed.

Lemma sorted_state_sort_order s :
  Forall is_number (m_depths s) -> Forall is_number (m_setPoints s) ->
  sort_order (sorted_state s).
Proof.
  intros Hd Hs i d d' sp sp' H1 H2 H3 H4.
  pose proof (nth_error_entries _ _ _ _ H1 H3) as E1.
  pose proof (nth_error_entries _ _ _ _ H2 H4) as E2.
  rewrite entries_sorted_state in E1, E2.
  refine (Sorted_nth_error (fun a b => in_order a b = true) _ _ i _ _ E1 E2).
  apply (sort_sorted comp
           (fun e => Double.is_nan (fst e) = false /\ Double.is_nan (snd e) = false)).
  - intros a b _ _. apply comp_true_in_order.
  - intros a b. apply comp_false_in_order.
  - exact (Forall_entries is_number is_number s Hd Hs).
Qed.

(** ** [getSetPointAtDepth] *)

Lemma nth_error_in_range {A : Type} (l : list A) i :
  (i < length l)%nat -> exists x, nth_error l i = Some x.
Proof.
  intros H. destruct (nth_error l i) eqn:E; [eauto|].
  apply nth_error_None in E. lia.
Qed.

Lemma last_index_pred s :
  m_depths s <> [] -> Z.of_nat (length (m_depths s)) < 2 ^ 64 ->
  last_index s = (length (m_depths s) - 1)%nat.
Proof.
  intros Hne Hlt. unfold last_index, size.
  assert (0 < length (m_depths s))%nat
    by (destruct (m_depths s); [congruence | simpl; lia]).
  rewrite word.unsigned_sub, !word.unsigned_of_Z. unfold word.wrap.
  rewrite (Z.mod_small (Z.of_nat _)), (Z.mod_small 1), Z.mod_small by lia. lia.
Qed.

Section Scan.
Variables (depth : double) (s : SetPoints).

Lemma scan_found iters : forall i j sp,
  scan depth s i iters = Some (Some (j, sp)) ->
  (i <= j < i + iters)%nat /\ between depth (m_depths s) j /\
  nth_error (m_setPoints s) j = Some sp /\
  forall k, (i <= k < j)%nat -> ~ between depth (m_depths s) k.
Proof.
  induction iters as [|iters IH]; intros i j sp; simpl; [discriminate|].
  destruct (nth_error (m_depths s) i) as [di|] eqn:Ei; [|discriminate].
  assert (Hskip : scan depth s (S i) iters = Some (Some (j, sp)) ->
                  ~ between depth (m_depths s) i ->
                  (i <= j < i + S iters)%nat /\ between depth (m_depths s) j /\
                  nth_error (m_setPoints s) j = Some sp /\
                  forall k, (i <= k < j)%nat -> ~ between depth (m_depths s) k).
  { intros H Hi. apply IH in H as (Hj & Hb & Hsp & Hfirst).
    refine (conj _ (conj Hb (conj Hsp _))); [lia|].
    intros k Hk. destruct (Nat.eq_dec k i) as [->|]; [assumption|].
    apply Hfirst. lia. }
  destruct (Double.lt depth di) eqn:Elt.
  - rewrite Nat.add_1_r.
    destruct (nth_error (m_depths s) (S i)) as [di1|] eqn:Ei1; [|discriminate].
    destruct (Double.ge depth di1) eqn:Ege.
    + destruct (nth_error (m_setPoints s) i) as [sp'|] eqn:Esp; [|discriminate].
      intros [= <- <-]. refine (conj _ (conj _ (conj Esp _))).
      * lia.
      * exists di, di1. auto.
      * intros k Hk. lia.
    + intros H. apply Hskip; [assumption|].
      intros (d & d' & Hd & Hd' & _ & Hge). congruence.
  - intros H. apply Hskip; [assumption|].
    intros (d & d' & Hd & Hd' & Hlt & _). congruence.
Qed.

Lemma scan_not_found iters : forall i,
  scan depth s i iters = Some None ->
  forall k, (i <= k < i + iters)%nat -> ~ between depth (m_depths s) k.
Proof.
  induction iters as [|iters IH]; intros i; simpl; [intros _ k Hk; lia|].
  destruct (nth_error (m_depths s) i) as [di|] eqn:Ei; [|discriminate].
  assert (Hskip : scan depth s (S i) iters = Some None ->
                  ~ between depth (m_depths s) i ->
                  forall k, (i <= k < i + S iters)%nat ->
                            ~ between depth (m_depths s) k).
  { intros H Hi k Hk. destruct (Nat.eq_dec k i) as [->|]; [assumption|].
    apply (IH _ H). lia. }
  destruct (Double.lt depth di) eqn:Elt.
  - rewrite Nat.add_1_r.
    destruct (nth_error (m_depths s) (S i)) as [di1|] eqn:Ei1; [|discriminate].
    destruct (Double.ge depth di1) eqn:Ege.
    + destruct (nth_error (m_setPoints s) i); discriminate.
    + intros H. apply Hskip; [assumption|].
      intros (d & d' & Hd & Hd' & _ & Hge). congruence.
  - intros H. apply Hskip; [assumption|].
    intros (d & d' & Hd & Hd' & Hlt & _). congruence.
Qed.

(** The loop reads inside the two vectors. *)
Lemma scan_defined iters : forall i,
  length (m_depths s) = length (m_setPoints s) ->
  (i + iters < length (m_depths s))%nat ->
  scan depth s i iters <> None.
Proof.
  induction iters as [|iters IH]; intros i Hlen Hi; simpl; [discriminate|].
  destruct (nth_error_in_range (m_depths s) i) as [di ->]; [lia|].
  destruct (nth_error_in_range (m_depths s) (S i)) as [di1 Ei1]; [lia|].
  destruct (nth_error_in_range (m_setPoints s) i) as [sp ->]; [lia|].
  rewrite Nat.add_1_r, Ei1.
  destruct (Double.lt depth di), (Double.ge depth di1);
    try discriminate; apply IH; auto; lia.
Qed.

(** Below the entry at [i], not below the entry at [i + iters], numbers
    in between: some adjacent pair encloses the depth. *)
Lemma between_exists iters : forall i di dl,
  nth_error (m_depths s) i = Some di ->
  nth_error (m_depths s) (i + iters) = Some dl ->
  Double.lt depth di = true -> Double.ge depth dl = true ->
  (forall k d, (i < k <= i + iters)%nat -> nth_error (m_depths s) k = Some d ->
               Double.is_nan d = false) ->
  exists k, (i <= k < i + iters)%nat /\ between depth (m_depths s) k.
Proof.
  induction iters as [|iters IH]; intros i di dl Hi Hl Hlt Hge Hnum.
  - rewrite Nat.add_0_r in Hl. apply lt_not_ge in Hlt. congruence.
  - destruct (nth_error_in_range (m_depths s) (S i)) as [di1 Ei1].
    { assert (i + S iters < length (m_depths s))%nat
        by (apply nth_error_Some; congruence). lia. }
    destruct (Double.ge depth di1) eqn:Ege.
    + exists i. split; [lia|]. exists di, di1. auto.
    + destruct (IH (S i) di1 dl) as (k & Hk & Hb); auto.
      * now rewrite Nat.add_succ_comm.
      * apply not_ge_lt; auto.
        -- now apply lt_true in Hlt.
        -- apply (Hnum (S i)); [lia | assumption].
      * intros k d Hk. apply Hnum. lia.
      * exists k. split; [lia | assumption].
Qed.

End Scan.

(** The call on a state with at least one entry, statement by statement. *)
Lemma getSetPointAtDepth_cases g depth boosted s :
  well_formed s -> m_depths s <> [] ->
  let s' := sorted_state s in
  let last := (length (m_depths s') - 1)%nat in
  exists d0 sp0 dl spl,
    nth_error (m_depths s') 0 = Some d0 /\
    nth_error (m_setPoints s') 0 = Some sp0 /\
    nth_error (m_depths s') last = Some dl /\
    nth_error (m_setPoints s') last = Some spl /\
    getSetPointAtDepth_return g depth boosted s =
      if Double.ge depth d0 || negb boosted then Some (s', (ReturnCaseA, sp0))
      else if Double.lt depth dl then Some (s', (ReturnCaseB, spl))
      else match scan depth s' 0 last with
           | Some (Some (i, sp)) => Some (s', (ReturnCaseC i, sp))
           | Some None => Some (s', (ReturnFallback, sp0))
           | None => None
           end.
Proof.
  intros Hwf Hne s' last.
  pose proof (sorted_state_well_formed s Hwf) as [Hlen' Hsz'].
  destruct Hwf as [Hlen Hsz].
  destruct (sorted_state_lengths s Hlen) as [Hd' Hp'].
  fold s' in Hlen', Hsz', Hd', Hp'.
  assert (Hpos : (0 < length (m_depths s))%nat)
    by (destruct (m_depths s); [congruence | simpl; lia]).
  assert (Hne' : m_depths s' <> []).
  { intros E. rewrite E in Hd'. simpl in Hd'. lia. }
  destruct (nth_error_in_range (m_depths s') 0) as [d0 E0]; [lia|].
  destruct (nth_error_in_range (m_setPoints s') 0) as [sp0 P0]; [lia|].
  destruct (nth_error_in_range (m_depths s') last) as [dl El]; [subst last; lia|].
  destruct (nth_error_in_range (m_setPoints s') last) as [spl Pl]; [subst last; lia|].
  exists d0, sp0, dl, spl. repeat split; try assumption.
  unfold getSetPointAtDepth_return.
  rewrite sortSetPoints_sorted_state by lia. fold s'.
  rewrite (last_index_pred s' Hne' Hsz'). fold last.
  assert (Hm : forall (X : Type) (a b : X),
             match m_depths s' with [] => a | _ :: _ => b end = b)
    by (intros; destruct (m_depths s'); congruence).
  rewrite Hm, E0, P0, El, Pl.
  destruct (Double.ge depth d0 || negb boosted); [reflexivity|].
  destruct (Double.lt depth dl); [reflexivity|].
  destruct (scan depth s' 0 last) as [[[i sp]|]|]; reflexivity.
Qed.

Lemma example_setpoints_well_formed : well_formed example_setpoints.
Proof. split; [reflexivity | vm_compute; reflexivity]. Qed.

Lemma sorted_head_deepest (l : list (double * double)) :
  Sorted (fun a b => Double.ge (fst a) (fst b) = true) l ->
  forall x, hd_error l = Some x -> Double.is_nan (fst x) = false ->
  Forall (fun e => Double.ge (fst x) (fst e) = true) l.
Proof.
  induction 1 as [|a l Hs IH Hh]; intros x Hx Hn; [constructor|].
  injection Hx as <-. constructor; [now apply ge_refl|].
  destruct l as [|b l]; [constructor|].
  apply HdRel_inv in Hh.
  assert (Hb : Double.is_nan (fst b) = false)
    by (unfold Double.ge in Hh; now apply le_true in Hh).
  specialize (IH b eq_refl Hb).
  eapply Forall_impl; [|exact IH].
  intros e He. now apply (ge_trans _ (fst b)).
Qed.

Lemma sorted_state_depth_numbers s :
  Forall is_number (m_depths s) ->
  Forall (fun e => Double.is_nan (fst e) = false) (Std.sort comp (entries s)).
Proof.
  intros Hnum. eapply Permutation_Forall; [apply sort_perm|].
  eapply Forall_impl;
    [|exact (Forall_entries is_number (fun _ => True) s Hnum
               (proj2 (Forall_forall _ _) (fun _ _ => I)))].
  now intros e [He _].
Qed.

Lemma sorted_state_sorted_by_depth s :
  Forall is_number (m_depths s) ->
  Sorted (fun a b => Double.ge (fst a) (fst b) = true) (Std.sort comp (entries s)).
Proof.
  intros Hnum.
  apply (sort_sorted comp (fun e => Double.is_nan (fst e) = false)).
  - intros a b _ _. apply comp_true_depth.
  - intros a b. apply comp_false_depth.
  - eapply Permutation_Forall;
      [symmetry; apply sort_perm | now apply sorted_state_depth_numbers].
Qed.


Lemma sorted_state_deepest s deepest :
  length (m_depths s) = length (m_setPoints s) ->
  Forall is_number (m_depths s) ->
  nth_error (m_depths (sorted_state s)) 0 = Some deepest ->
  Forall (fun d => Double.ge deepest d = true) (m_depths s).
Proof.
  intros Hlen Hnum H0.
  eapply Permutation_Forall; [symmetry; apply (sorted_state_depths s Hlen)|].
  pose proof (sorted_state_depth_numbers s Hnum) as HP.
  pose proof (sorted_state_sorted_by_depth s Hnum) as Hs.
  simpl in *. destruct (Std.sort comp (entries s)) as [|x l]; [discriminate|].
  simpl in H0. injection H0 as <-.
  apply Forall_map.
  apply (sorted_head_deepest _ Hs x eq_refl). now apply Forall_inv in HP.
Qed.

(** A depth that is a NaN is not the deepest, and the sort leaves it
    where it is: with the entries (NaN, 1.3) and (10, 1.6) a call that is
    not boosted returns the set point of the entry the list has first,
    1.3 in one order and 1.6 in the other, and the only entry with a
    depth is (10, 1.6). *)
Lemma getSetPointAtDepth_nan_not_deepest :
  getSetPointAtDepth example_parameters (Double.lit 30.0) false nan_first_setpoints
  = Some (nan_first_setpoints, Double.lit 1.3) /\
  getSetPointAtDepth example_parameters (Double.lit 30.0) false nan_last_setpoints
  = Some (nan_last_setpoints, Double.lit 1.6) /\
  Permutation (entries nan_first_setpoints) (entries nan_last_setpoints) /\
  Double.ge (Double.lit nan) (Double.lit 10.0) = false /\
  Double.lit 1.3 <> Double.lit 1.6.
Proof.
  split; [vm_compute; reflexivity|]. split; [vm_compute; reflexivity|].
  split; [apply perm_swap|]. split; [vm_compute; reflexivity|].
  vm_compute. discriminate.
Qed.

(** C1, for numbers: on a list with at least one entry a call that is
    not boosted returns, whatever the depth, the set point at index 0 of
    the sorted vectors, which is the set point of an entry of the list;
    when the depths of the list are numbers, no entry lies deeper than
    that entry. *)
Theorem getSetPointAtDepth_not_boosted g depth s :
  well_formed s -> m_depths s <> [] ->
  exists s' deepest setpoint,
    sortSetPoints s = Some s' /\
    nth_error (m_depths s') 0 = Some deepest /\
    nth_error (m_setPoints s') 0 = Some setpoint /\
    In (deepest, setpoint) (entries s) /\
    getSetPointAtDepth g depth false s = Some (s', setpoint) /\
    (Forall is_number (m_depths s) ->
     Forall (fun d => Double.ge deepest d = true) (m_depths s)).
Proof.
  intros Hwf Hne.
  destruct (getSetPointAtDepth_cases g depth false s Hwf Hne)
    as (d0 & sp0 & dl & spl & E0 & P0 & _ & _ & Hcall).
  rewrite orb_true_r in Hcall.
  exists (sorted_state s), d0, sp0.
  split; [apply sortSetPoints_sorted_state; destruct Hwf; lia|].
  split; [assumption|]. split; [assumption|]. split; [|split].
  - apply (Permutation_in _ (Permutation_sym (sort_perm comp (entries s)))).
    rewrite <- entries_sorted_state.
    eapply nth_error_In, nth_error_entries; eassumption.
  - unfold getSetPointAtDepth. now rewrite Hcall.
  - intros Hnum. apply sorted_state_deepest; auto. apply Hwf.
Qed.

Lemma getSetPointAtDepth_not_boosted_witness :
  exists s' deepest setpoint,
    sortSetPoints example_setpoints = Some s' /\
    nth_error (m_depths s') 0 = Some deepest /\
    nth_error (m_setPoints s') 0 = Some setpoint /\
    In (deepest, setpoint) (entries example_setpoints) /\
    getSetPointAtDepth example_parameters (Double.lit 30.0) false example_setpoints
      = Some (s', setpoint) /\
    (Forall is_number (m_depths example_setpoints) ->
     Forall (fun d => Double.ge deepest d = true) (m_depths example_setpoints)).
Proof.
  apply (getSetPointAtDepth_not_boosted example_parameters (Double.lit 30.0)
           example_setpoints).
  - split; [reflexivity | vm_compute; reflexivity].
  - discriminate.
Defined.

(** The default schedule, boosted: at and below 1000 m the deepest set
    point; between two entries, and at the depth of the shallower one, the
    set point of the deeper one; above 6 m the shallowest set point.  Not
    boosted: the deepest set point everywhere. *)
Example getSetPointAtDepth_default_schedule :
  map (fun '(depth, boosted) =>
         getSetPointAtDepth_return example_parameters depth boosted example_setpoints)
      [(Double.lit 1200.0, true); (Double.lit 1000.0, true);
       (Double.lit 45.0, true); (Double.lit 40.0, true);
       (Double.lit 30.0, true); (Double.lit 21.0, true);
       (Double.lit 6.0, true); (Double.lit 3.0, true);
       (Double.lit 3.0, false)]
  = map (fun r => Some (default_setpoints, r))
      [(ReturnCaseA, Double.lit 1.3); (ReturnCaseA, Double.lit 1.3);
       (ReturnCaseC 0, Double.lit 1.3); (ReturnCaseC 0, Double.lit 1.3);
       (ReturnCaseC 1, Double.lit 1.4); (ReturnCaseC 1, Double.lit 1.4);
       (ReturnCaseC 2, Double.lit 1.5); (ReturnCaseB, Double.lit 1.6);
       (ReturnCaseA, Double.lit 1.3)].
Proof. vm_compute. reflexivity. Qed.

(** C2: with no entry the call returns the maximum diluent PpO2 of the
    parameters, whatever the depth and the flag. *)
Theorem getSetPointAtDepth_empty g depth boosted setPoints :
  getSetPointAtDepth g depth boosted (mkSetPoints [] setPoints)
  = Some (mkSetPoints [] [], m_maxPpO2Diluent g).
Proof.
  unfold getSetPointAtDepth, getSetPointAtDepth_return.
  assert (Hsort : sortSetPoints (mkSetPoints [] setPoints) = Some (mkSetPoints [] []))
    by reflexivity.
  rewrite Hsort. reflexivity.
Qed.




(** The loop of case C returns at the first enclosing pair when the depth
    lies below the first entry, not below the last, and the entries after
    the first are numbers. *)
Lemma scan_first_between depth s d0 dl :
  length (m_depths s) = length (m_setPoints s) -> m_depths s <> [] ->
  nth_error (m_depths s) 0 = Some d0 ->
  nth_error (m_depths s) (length (m_depths s) - 1) = Some dl ->
  Double.lt depth d0 = true -> Double.ge depth dl = true ->
  (forall k d, (0 < k)%nat -> nth_error (m_depths s) k = Some d ->
               Double.is_nan d = false) ->
  exists i sp,
    scan depth s 0 (length (m_depths s) - 1) = Some (Some (i, sp)) /\
    between depth (m_depths s) i /\
    (forall j, (j < i)%nat -> ~ between depth (m_depths s) j) /\
    nth_error (m_setPoints s) i = Some sp.
Proof.
  intros Hlen Hne H0 Hl Hlt Hge Hnum.
  assert (Hpos : (0 < length (m_depths s))%nat)
    by (destruct (m_depths s); [congruence | simpl; lia]).
  set (last := (length (m_depths s) - 1)%nat) in *.
  destruct (scan depth s 0 last) as [[[i sp]|]|] eqn:E.
  - apply scan_found in E as (_ & Hb & Hsp & Hfirst).
    exists i, sp. repeat split; auto. intros j Hj. apply Hfirst. lia.
  - destruct (between_exists depth s last 0 d0 dl) as (k & Hk & Hb); auto.
    + intros k d Hk. apply Hnum. lia.
    + exfalso. exact (scan_not_found depth s last 0 E k Hk Hb).
  - exfalso. apply (scan_defined depth s last 0); auto. subst last. lia.
Qed.




(** C9 fails for a depth that is a NaN: boosted, the call returns from
    the statement after the loop. *)
Lemma getSetPointAtDepth_nan_fallback :
  getSetPointAtDepth_return example_parameters (Double.lit nan) true single_setpoint
  = Some (single_setpoint, (ReturnFallback, Double.lit 1.3)).
Proof. vm_compute. reflexivity. Qed.

(** C9, for numbers: on a list with at least one entry whose depths are
    numbers, a call for a depth that is a number returns in case A, in
    case B or inside the loop of case C, and so not from the statement
    after the loop. *)
Theorem getSetPointAtDepth_returns_in_a_case g depth boosted s :
  well_formed s -> m_depths s <> [] ->
  is_number depth -> Forall is_number (m_depths s) ->
  exists s' r setpoint,
    getSetPointAtDepth_return g depth boosted s = Some (s', (r, setpoint)) /\
    (r = ReturnCaseA \/ r = ReturnCaseB \/ exists i, r = ReturnCaseC i).
Proof.
  intros Hwf Hne Hdepth Hnum.
  destruct (getSetPointAtDepth_cases g depth boosted s Hwf Hne)
    as (d0 & sp0 & dl & spl & E0 & P0 & El & Pl & Hcall).
  pose proof (sorted_state_well_formed s Hwf) as [Hlen' _].
  assert (Hnum' : forall k d, nth_error (m_depths (sorted_state s)) k = Some d ->
                              Double.is_nan d = false).
  { intros k d Hd. apply nth_error_In in Hd. revert d Hd. apply Forall_forall.
    eapply Permutation_Forall; [apply sorted_state_depths, Hwf | exact Hnum]. }
  assert (Hne' : m_depths (sorted_state s) <> [])
    by (intros E; rewrite E in E0; discriminate).
  exists (sorted_state s).
  destruct (Double.ge depth d0 || negb boosted) eqn:EA; [eauto 6|].
  destruct (Double.lt depth dl) eqn:EB; [eauto 6|].
  apply orb_false_iff in EA as [EA _].
  destruct (scan_first_between depth (sorted_state s) d0 dl)
    as (i & sp & Hscan & _); auto.
  - apply not_ge_lt; eauto.
  - apply not_lt_ge; eauto.
  - eauto.
  - rewrite Hscan in Hcall. eauto 8.
Qed.

Lemma getSetPointAtDepth_returns_in_a_case_witness :
  exists s' r setpoint,
    getSetPointAtDepth_return example_parameters (Double.lit 30.0) true example_setpoints
      = Some (s', (r, setpoint)) /\
    (r = ReturnCaseA \/ r = ReturnCaseB \/ exists i, r = ReturnCaseC i).
Proof.
  apply (getSetPointAtDepth_returns_in_a_case example_parameters (Double.lit 30.0)
           true example_setpoints).
  - split; [reflexivity | vm_compute; reflexivity].
  - discriminate.
  - vm_compute; reflexivity.
  - repeat constructor.
Defined.

(** ** The sort order *)

(** C4 fails with a NaN among the depths: neither arrangement of the two
    entries (NaN, 1.3) and (5, 1.3) is in the sort order, and
    [sortSetPoints] leaves them as they are. *)
Lemma sortSetPoints_nan_out_of_order :
  sortSetPoints nan_setpoints = Some nan_setpoints /\
  ~ sort_order nan_setpoints /\
  ~ sort_order (mkSetPoints (rev (m_depths nan_setpoints))
                            (rev (m_setPoints nan_setpoints))).
Proof.
  split; [vm_compute; reflexivity|].
  split; intros H;
    specialize (H 0%nat _ _ _ _ eq_refl eq_refl eq_refl eq_refl);
    vm_compute in H; discriminate.
Qed.

Lemma entries_app s depth setpoint :
  length (m_depths s) = length (m_setPoints s) ->
  entries (mkSetPoints (m_depths s ++ [depth]) (m_setPoints s ++ [setpoint]))
  = entries s ++ [(depth, setpoint)].
Proof.
  unfold entries. destruct s as [depths setPoints]. simpl. revert setPoints.
  induction depths as [|d depths IH]; intros [|sp setPoints] H; simpl in *;
    try congruence.
  rewrite IH; congruence.
Qed.

(** C4, for depths and set points that are numbers: [sortSetPoints], and
    so [addSetPoint] of two numbers, leaves every two adjacent entries in
    the order [depths[i] > depths[i+1]], or [depths[i] == depths[i+1]] and
    [setpoints[i] >= setpoints[i+1]], and leaves the entries it found, each
    as many times. *)
Theorem sortSetPoints_sort_order s :
  well_formed s ->
  Forall is_number (m_depths s) -> Forall is_number (m_setPoints s) ->
  (exists s', sortSetPoints s = Some s' /\ sort_order s' /\
              length (m_depths s') = length (m_setPoints s') /\
              Permutation (entries s) (entries s')) /\
  (forall depth setpoint, is_number depth -> is_number setpoint ->
   exists s', addSetPoint depth setpoint s = Some s' /\ sort_order s' /\
              length (m_depths s') = length (m_setPoints s') /\
              Permutation (entries s ++ [(depth, setpoint)]) (entries s')).
Proof.
  intros [Hlen Hsz] Hd Hs. split.
  - exists (sorted_state s).
    split; [apply sortSetPoints_sorted_state; lia|].
    split; [now apply sorted_state_sort_order|].
    split; [destruct (sorted_state_lengths s Hlen); congruence|].
    rewrite entries_sorted_state. apply sort_perm.
  - intros depth setpoint Hdepth Hsetpoint. unfold addSetPoint.
    set (t := mkSetPoints (m_depths s ++ [depth]) (m_setPoints s ++ [setpoint])).
    assert (Ht : length (m_depths t) = length (m_setPoints t))
      by (simpl; rewrite !length_app; simpl; lia).
    exists (sorted_state t).
    split; [apply sortSetPoints_sorted_state; lia|].
    split.
    { apply sorted_state_sort_order; simpl; apply Forall_app; auto. }
    split; [destruct (sorted_state_lengths t Ht); congruence|].
    rewrite entries_sorted_state, <- (entries_app s depth setpoint Hlen).
    apply sort_perm.
Qed.

Lemma sortSetPoints_sort_order_witness :
  (exists s', sortSetPoints example_setpoints = Some s' /\ sort_order s' /\
              length (m_depths s') = length (m_setPoints s') /\
              Permutation (entries example_setpoints) (entries s')) /\
  (forall depth setpoint, is_number depth -> is_number setpoint ->
   exists s', addSetPoint depth setpoint example_setpoints = Some s' /\
              sort_order s' /\
              length (m_depths s') = length (m_setPoints s') /\
              Permutation (entries example_setpoints ++ [(depth, setpoint)])
                          (entries s')).
Proof.
  apply (sortSetPoints_sort_order example_setpoints).
  - split; [reflexivity | vm_compute; reflexivity].
  - repeat constructor.
  - repeat constructor.
Defined.

(** ** [removeSetPoint] *)

Lemma erase_length {A : Type} (l : list A) : forall index,
  (index < length l)%nat -> length (Std.erase index l) = (length l - 1)%nat.
Proof.
  induction l as [|x l IH]; intros [|index] H; simpl in *; try lia.
  rewrite IH by lia. lia.
Qed.

Lemma erase_nth_error {A : Type} (l : list A) : forall index j,
  nth_error (Std.erase index l) j
  = nth_error l (if (j <? index)%nat then j else S j).
Proof.
  induction l as [|x l IH]; intros index j; simpl.
  - destruct (j <? index)%nat, j; reflexivity.
  - destruct index as [|index]; [reflexivity|].
    destruct j as [|j]; [reflexivity|]. simpl. rewrite IH.
    change (S j <? S index)%nat with (j <? index)%nat.
    now destruct (j <? index)%nat.
Qed.

(** C10: an index that is not below the number of set points leaves both
    vectors as they are; an index below it takes the element at that
    position out of both, the elements before it keeping their positions
    and the elements after it moving down by one. *)
Theorem removeSetPoint_erases index s :
  well_formed s ->
  ((length (m_depths s) <= index)%nat -> removeSetPoint index s = Some s) /\
  ((index < length (m_depths s))%nat ->
   exists s', removeSetPoint index s = Some s' /\
     length (m_depths s') = (length (m_depths s) - 1)%nat /\
     length (m_setPoints s') = (length (m_setPoints s) - 1)%nat /\
     forall j,
       nth_error (m_depths s') j
       = nth_error (m_depths s) (if (j <? index)%nat then j else S j) /\
       nth_error (m_setPoints s') j
       = nth_error (m_setPoints s) (if (j <? index)%nat then j else S j)).
Proof.
  intros [Hlen _]. unfold removeSetPoint. split; intros H.
  - apply Nat.ltb_ge in H. now rewrite H.
  - rewrite <- Hlen. apply Nat.ltb_lt in H as H'. rewrite H'.
    eexists. split; [reflexivity|]. simpl.
    rewrite !erase_length by lia. repeat split; try lia;
      apply erase_nth_error.
Qed.

Lemma removeSetPoint_erases_witness :
  removeSetPoint 7 example_setpoints = Some example_setpoints /\
  exists s', removeSetPoint 1 example_setpoints = Some s' /\
    length (m_depths s') = (length (m_depths example_setpoints) - 1)%nat /\
    length (m_setPoints s') = (length (m_setPoints example_setpoints) - 1)%nat /\
    forall j,
      nth_error (m_depths s') j
      = nth_error (m_depths example_setpoints) (if (j <? 1)%nat then j else S j) /\
      nth_error (m_setPoints s') j
      = nth_error (m_setPoints example_setpoints) (if (j <? 1)%nat then j else S j).
Proof.
  split.
  - apply (proj1 (removeSetPoint_erases 7 example_setpoints
                    example_setpoints_well_formed)).
    simpl. lia.
  - apply (proj2 (removeSetPoint_erases 1 example_setpoints
                    example_setpoints_well_formed)).
    simpl. lia.
Defined.

(** ** Object representations and streams *)

Lemma double_of_bytes_of_double d : double_of_bytes (bytes_of_double d) = d.
Proof.
  unfold double_of_bytes, bytes_of_double, Double.of_bits, Double.bits.
  rewrite le_combine_split, Z.mod_small by apply word.unsigned_range.
  apply word.of_Z_unsigned.
Qed.

Lemma size_t_of_bytes_of_size_t n : size_t_of_bytes (bytes_of_size_t n) = n.
Proof.
  unfold size_t_of_bytes, bytes_of_size_t.
  rewrite le_combine_split, Z.mod_small by apply word.unsigned_range.
  apply word.of_Z_unsigned.
Qed.

Lemma enum_of_bytes_of_enum e : enum_of_bytes (bytes_of_enum e) = e.
Proof.
  unfold enum_of_bytes, bytes_of_enum.
  rewrite le_combine_split, Z.mod_small by apply word.unsigned_range.
  apply word.of_Z_unsigned.
Qed.

Lemma bytes_of_double_length d : length (bytes_of_double d) = 8%nat.
Proof. apply length_le_split. Qed.

Lemma bytes_of_size_t_length n : length (bytes_of_size_t n) = 8%nat.
Proof. apply length_le_split. Qed.

Lemma bytes_of_enum_length e : length (bytes_of_enum e) = 4%nat.
Proof. apply length_le_split. Qed.

Lemma size_unsigned {A : Type} (v : list A) :
  Z.of_nat (length v) < 2 ^ 64 ->
  Z.to_nat (word.unsigned (size v)) = length v.
Proof.
  intros H. unfold size. rewrite word.unsigned_of_Z. unfold word.wrap.
  rewrite Z.mod_small by lia. apply Nat2Z.id.
Qed.

(** A read of an object that the stream holds in full. *)
Lemma read_whole object rest :
  Std.read (length object) (Std.mkIfstream (object ++ rest) true)
  = (object, Std.mkIfstream rest true).
Proof.
  unfold Std.read. simpl.
  rewrite firstn_app, firstn_all, Nat.sub_diag, firstn_O, app_nil_r.
  rewrite skipn_app, skipn_all, Nat.sub_diag, skipn_O. simpl.
  rewrite length_app. now replace (_ <=? _)%nat with true by (symmetry; apply Nat.leb_le; lia).
Qed.

Lemma read_uninit_whole n object rest :
  length object = n ->
  Std.read_uninit n (Std.mkIfstream (object ++ rest) true)
  = Some (object, Std.mkIfstream rest true).
Proof. intros <-. unfold Std.read_uninit. now rewrite read_whole. Qed.

Lemma read_into_whole buf object rest :
  length object = length buf ->
  Std.read_into buf (Std.mkIfstream (object ++ rest) true)
  = (object, Std.mkIfstream rest true).
Proof.
  intros H. unfold Std.read_into. rewrite <- H, read_whole.
  unfold Std.store. now rewrite H, skipn_all, app_nil_r.
Qed.

Lemma read_into_all buf object :
  length object = length buf ->
  Std.read_into buf (Std.mkIfstream object true)
  = (object, Std.mkIfstream [] true).
Proof.
  intros H. rewrite <- (app_nil_r object) at 1. now apply read_into_whole.
Qed.

(** ** Saving and loading the set points *)

Lemma skipn_nth_error {A : Type} (l : list A) : forall i x,
  nth_error l i = Some x -> skipn i l = x :: skipn (S i) l.
Proof.
  induction l as [|y l IH]; intros [|i] x H; simpl in *; try discriminate.
  - now injection H as ->.
  - now apply IH.
Qed.

Lemma write_setpoints_entries s iters : forall i,
  length (m_depths s) = length (m_setPoints s) ->
  (i + iters = length (m_depths s))%nat ->
  write_setpoints s i iters = Some (flat_map bytes_of_entry (skipn i (entries s))).
Proof.
  induction iters as [|iters IH]; intros i Hlen Hi; cbn [write_setpoints].
  - rewrite skipn_all2; [reflexivity|]. rewrite entries_length; lia.
  - destruct (nth_error_in_range (m_depths s) i) as [d Hd]; [lia|].
    destruct (nth_error_in_range (m_setPoints s) i) as [sp Hsp]; [lia|].
    rewrite Hd, Hsp, IH by lia.
    rewrite (skipn_nth_error _ _ _ (nth_error_entries s i d sp Hd Hsp)).
    cbn [flat_map]. unfold bytes_of_entry. cbn [fst snd].
    now rewrite <- app_assoc.
Qed.

Lemma read_setpoints_entries l : forall rest s,
  read_setpoints (length l)
    (Std.mkIfstream (flat_map bytes_of_entry l ++ rest) true) s
  = Some (mkSetPoints (m_depths s ++ map fst l) (m_setPoints s ++ map snd l),
          Std.mkIfstream rest true).
Proof.
  induction l as [|[d sp] l IH]; intros rest s;
    cbn [length flat_map map read_setpoints app].
  - rewrite !app_nil_r. now destruct s.
  - unfold bytes_of_entry at 1. cbn [fst snd]. rewrite <- !app_assoc.
    rewrite read_uninit_whole by apply bytes_of_double_length.
    rewrite read_uninit_whole by apply bytes_of_double_length.
    rewrite IH. cbn [m_depths m_setPoints fst snd].
    rewrite !double_of_bytes_of_double, <- !app_assoc.
    reflexivity.
Qed.

Lemma save_then_load_setpoints s s0 f :
  Std.can_write f = true -> Std.can_read f = true ->
  well_formed s -> m_depths s <> [] ->
  exists f', saveSetPointsToFile s f = Some (true, f') /\
             loadSetPointsFromFile s0 f' = Some (true, s, f').
Proof.
  intros Hw Hr [Hlen Hsz] Hne. unfold saveSetPointsToFile, nbOfSetPoints.
  rewrite Hw, size_unsigned, write_setpoints_entries by auto.
  cbn [skipn].
  eexists. split; [reflexivity|].
  unfold loadSetPointsFromFile, Std.write_file.
  cbn [Std.contents Std.can_read]. rewrite Hr.
  rewrite read_uninit_whole by apply bytes_of_size_t_length.
  rewrite size_t_of_bytes_of_size_t, size_unsigned by assumption.
  rewrite <- (entries_length s Hlen).
  rewrite <- (app_nil_r (flat_map _ _)), read_setpoints_entries.
  cbn [m_depths m_setPoints app]. unfold entries.
  rewrite map_fst_combine, map_snd_combine by assumption.
  destruct s as [[|d depths] setPoints]; [contradiction|]. reflexivity.
Qed.

(** ** Saving and loading the gas list *)

Section GasListFacts.
Variables (BOTTOM : GasType) (ACTIVE : GasStatus) (max_size : Z).

Lemma read_gases_whole gases : forall rest loaded,
  read_gases BOTTOM ACTIVE (length gases)
    (Std.mkIfstream (flat_map bytes_of_gas gases ++ rest) true) loaded
  = loaded ++ gases.
Proof.
  induction gases as [|gas gases IH]; intros rest loaded;
    cbn [length flat_map read_gases].
  - now rewrite app_nil_r.
  - unfold bytes_of_gas at 1. rewrite <- !app_assoc.
    rewrite read_into_whole by now rewrite !bytes_of_double_length.
    rewrite read_into_whole by now rewrite !bytes_of_double_length.
    rewrite read_into_whole by now rewrite !bytes_of_enum_length.
    rewrite read_into_whole by now rewrite !bytes_of_enum_length.
    rewrite IH. unfold addGas.
    rewrite !double_of_bytes_of_double, !enum_of_bytes_of_enum, <- app_assoc.
    now destruct gas.
Qed.

Lemma save_then_load_gases gases gases0 f :
  Std.can_write f = true -> Std.can_read f = true ->
  Z.of_nat (length gases) <= max_size -> max_size < 2 ^ 64 ->
  exists f', saveGaslistToFile gases f = (true, f') /\
             loadGaslistFromFile BOTTOM ACTIVE max_size gases0 f' = (true, gases, f').
Proof.
  intros Hw Hr Hmax Hsz. unfold saveGaslistToFile. rewrite Hw.
  eexists. split; [reflexivity|].
  unfold loadGaslistFromFile, Std.write_file.
  cbn [Std.contents Std.can_read]. rewrite Hr.
  rewrite read_into_whole by now rewrite !bytes_of_size_t_length.
  rewrite size_t_of_bytes_of_size_t.
  assert (Hcount : word.unsigned (size gases) = Z.of_nat (length gases)).
  { unfold size. rewrite word.unsigned_of_Z. unfold word.wrap.
    apply Z.mod_small. lia. }
  rewrite Hcount, Nat2Z.id.
  replace (max_size <? Z.of_nat (length gases)) with false by lia.
  now rewrite <- (app_nil_r (flat_map _ _)), read_gases_whole.
Qed.

(** A file whose count exceeds what the vector can hold: [reserve] throws,
    the load returns [false], and the gas list is left cleared. *)
Lemma loadGaslistFromFile_length_error gases count writable :
  max_size < word.unsigned count ->
  let f := Std.mkFile (Some (bytes_of_size_t count)) true writable in
  loadGaslistFromFile BOTTOM ACTIVE max_size gases f = (false, [], f).
Proof.
  intros Hcount f. unfold loadGaslistFromFile, f.
  cbn [Std.contents Std.can_read].
  rewrite read_into_all by now rewrite !bytes_of_size_t_length.
  rewrite size_t_of_bytes_of_size_t.
  now replace (max_size <? word.unsigned count) with true by lia.
Qed.

(** A file that ends after its count: the reads that fail are not
    noticed, the load returns [true], and the gas list holds as many
    gases as the count says, each as the variables were initialised. *)
Lemma loadGaslistFromFile_truncated gases writable :
  2 <= max_size ->
  let f := Std.mkFile (Some (bytes_of_size_t (word.of_Z 2))) true writable in
  loadGaslistFromFile BOTTOM ACTIVE max_size gases f
  = (true,
     [mkGas (Double.lit 0.0) (Double.lit 0.0) BOTTOM ACTIVE;
      mkGas (Double.lit 0.0) (Double.lit 0.0) BOTTOM ACTIVE], f).
Proof.
  intros Hmax f. unfold loadGaslistFromFile, f.
  cbn [Std.contents Std.can_read].
  rewrite read_into_all by now rewrite !bytes_of_size_t_length.
  rewrite size_t_of_bytes_of_size_t.
  replace (max_size <? word.unsigned (word.of_Z 2 : size_t)) with false
    by (change (word.unsigned (word.of_Z 2 : size_t)) with 2; lia).
  change (Z.to_nat (word.unsigned (word.of_Z 2 : size_t))) with 2%nat.
  cbn [read_gases]. unfold Std.read_into, Std.read, Std.store.
  rewrite !bytes_of_double_length, !bytes_of_enum_length.
  cbn [Std.good Std.pending firstn skipn length app Nat.leb].
  unfold addGas. cbn [app].
  now rewrite !double_of_bytes_of_double, !enum_of_bytes_of_enum.
Qed.

End GasListFacts.

(** ** Persistence *)

(** C5 fails for a list of set points with no entry: saving it and
    loading the file gives the four defaults. *)
Lemma save_then_load_no_setpoints :
  exists f,
    saveSetPointsToFile no_setpoints missing_file = Some (true, f) /\
    loadSetPointsFromFile no_setpoints f = Some (true, default_setpoints, f) /\
    default_setpoints <> no_setpoints.
Proof.
  eexists. split; [vm_compute; reflexivity|].
  split; [vm_compute; reflexivity | discriminate].
Qed.

(** C5, for set points with at least one entry: with a file that can be
    written and read, saving a gas list and loading the file gives the
    same gases in the same order, and saving a list of set points and
    loading the file gives the same depths and set points in the same
    order. *)
Theorem save_then_load BOTTOM ACTIVE max_size gases gases0 s s0 f :
  Std.can_write f = true -> Std.can_read f = true ->
  Z.of_nat (length gases) <= max_size -> max_size < 2 ^ 64 ->
  well_formed s -> m_depths s <> [] ->
  (exists f', saveGaslistToFile gases f = (true, f') /\
     loadGaslistFromFile BOTTOM ACTIVE max_size gases0 f' = (true, gases, f')) /\
  (exists f', saveSetPointsToFile s f = Some (true, f') /\
     loadSetPointsFromFile s0 f' = Some (true, s, f')).
Proof.
  intros Hw Hr Hmax Hsz Hwf Hne. split.
  - now apply save_then_load_gases.
  - now apply save_then_load_setpoints.
Qed.

Lemma save_then_load_witness :
  (exists f',
     saveGaslistToFile
       [mkGas (Double.lit 21.0) (Double.lit 35.0) (word.of_Z 0) (word.of_Z 0);
        mkGas (Double.lit 50.0) (Double.lit 0.0) (word.of_Z 1) (word.of_Z 1)]
       missing_file = (true, f') /\
     loadGaslistFromFile (word.of_Z 0) (word.of_Z 0) (2 ^ 58) [] f'
     = (true,
        [mkGas (Double.lit 21.0) (Double.lit 35.0) (word.of_Z 0) (word.of_Z 0);
         mkGas (Double.lit 50.0) (Double.lit 0.0) (word.of_Z 1) (word.of_Z 1)],
        f')) /\
  (exists f', saveSetPointsToFile example_setpoints missing_file = Some (true, f') /\
     loadSetPointsFromFile no_setpoints f' = Some (true, example_setpoints, f')).
Proof.
  apply (save_then_load (word.of_Z 0) (word.of_Z 0) (2 ^ 58)).
  - reflexivity.
  - reflexivity.
  - vm_compute; discriminate.
  - reflexivity.
  - split; [reflexivity | vm_compute; reflexivity].
  - discriminate.
Defined.

(** C6: when the file is missing, a load into an empty gas list, as in
    the constructor of [GasList], leaves the one gas of 21% O2 and 0% He,
    of type Bottom and status Active, and a load of the set points leaves
    the four entries (1000, 1.3), (40, 1.4), (21, 1.5), (6, 1.6); both
    loads return [false]. *)
Theorem missing_file_seeds_defaults BOTTOM ACTIVE max_size s readable writable :
  let f := Std.mkFile None readable writable in
  (exists f', loadGaslistFromFile BOTTOM ACTIVE max_size [] f
              = (false, [default_gas BOTTOM ACTIVE], f')) /\
  (exists f', GasList_new BOTTOM ACTIVE max_size f
              = ([default_gas BOTTOM ACTIVE], f')) /\
  (exists f', loadSetPointsFromFile s f = Some (false, default_setpoints, f')).
Proof.
  intros f. split; [|split].
  - unfold loadGaslistFromFile, f. cbn [Std.contents].
    destruct (saveGaslistToFile _ _) as [saved f']. now exists f'.
  - unfold GasList_new, loadGaslistFromFile, f. cbn [Std.contents].
    destruct (saveGaslistToFile _ _) as [saved f']. now exists f'.
  - unfold loadSetPointsFromFile, f. cbn [Std.contents].
    replace (setToDefault (mkSetPoints [] [])) with (Some default_setpoints)
      by (vm_compute; reflexivity).
    destruct writable; eexists; vm_compute; reflexivity.
Qed.

(** C7 fails for the set points: a load that cannot open the file returns
    [false] and has cleared them. *)
Lemma loadSetPointsFromFile_clears :
  loadSetPointsFromFile example_setpoints locked_file
  = Some (false, no_setpoints, locked_file) /\
  example_setpoints <> no_setpoints.
Proof. split; [reflexivity | discriminate]. Qed.

(** C7, for a file that exists and cannot be opened for reading: both
    loads return [false] and leave the file as it is; the gas list is left
    as it was, the set points are left without an entry. *)
Theorem load_cannot_open BOTTOM ACTIVE max_size gases s data writable :
  let f := Std.mkFile (Some data) false writable in
  loadGaslistFromFile BOTTOM ACTIVE max_size gases f = (false, gases, f) /\
  loadSetPointsFromFile s f = Some (false, mkSetPoints [] [], f).
Proof.
  intros f. split.
  - unfold loadGaslistFromFile, f. cbn [Std.contents Std.can_read]. reflexivity.
  - unfold loadSetPointsFromFile, f. cbn [Std.contents Std.can_read]. reflexivity.
Qed.

(** What the constructor of [DivePlanWindow] makes of such a load: the
    set points it held are gone, and the entry (0, 0.7) takes their
    place in memory and in the file. *)
Lemma DivePlanWindow_loadSetPoints_cannot_open :
  DivePlanWindow_loadSetPoints example_setpoints locked_file
  = Some (mkSetPoints [Double.lit 0.0] [Double.lit 0.7],
          Std.write_file
            (bytes_of_size_t (word.of_Z 1) ++
             bytes_of_double (Double.lit 0.0) ++ bytes_of_double (Double.lit 0.7))
            locked_file).
Proof. vm_compute. reflexivity. Qed.

(** ** The delete handlers *)

Lemma nbOfSetPoints_unsigned s :
  well_formed s -> word.unsigned (nbOfSetPoints s) = Z.of_nat (length (m_depths s)).
Proof.
  intros [_ Hsz]. unfold nbOfSetPoints, size.
  rewrite word.unsigned_of_Z. unfold word.wrap. apply Z.mod_small. lia.
Qed.

Lemma removeSetPoint_keeps index s :
  well_formed s -> (1 < length (m_depths s))%nat ->
  exists s', removeSetPoint index s = Some s' /\ well_formed s' /\ m_depths s' <> [].
Proof.
  intros [Hlen Hsz] Hmany. unfold removeSetPoint. rewrite <- Hlen.
  destruct (index <? length (m_depths s))%nat eqn:E.
  - apply Nat.ltb_lt in E. eexists. split; [reflexivity|].
    assert (Hd := erase_length (m_depths s) index E).
    assert (Hp := erase_length (m_setPoints s) index ltac:(lia)).
    split; [split|]; simpl.
    + lia.
    + lia.
    + intros H. rewrite H in Hd. simpl in Hd. lia.
  - exists s. split; [reflexivity|]. split; [now split|].
    intros H. rewrite H in Hmany. simpl in Hmany. lia.
Qed.

Lemma saveSetPointsToFile_defined s f :
  well_formed s -> exists saved f', saveSetPointsToFile s f = Some (saved, f').
Proof.
  intros [Hlen Hsz]. unfold saveSetPointsToFile, nbOfSetPoints.
  destruct (Std.can_write f); [|eauto].
  rewrite size_unsigned, write_setpoints_entries by auto. eauto.
Qed.

Lemma deleteSetpoint_keeps row s f :
  well_formed s -> m_depths s <> [] ->
  exists s' f', deleteSetpoint row s f = Some (s', f') /\
                well_formed s' /\ m_depths s' <> [].
Proof.
  intros Hwf Hne. unfold deleteSetpoint.
  destruct (_ || _); [eauto|].
  rewrite (nbOfSetPoints_unsigned s Hwf).
  destruct (1 <? Z.of_nat (length (m_depths s))) eqn:E; [|eauto].
  destruct (removeSetPoint_keeps
              (Z.to_nat (word.unsigned (size_t_of_int row))) s Hwf ltac:(lia))
    as (s' & -> & Hwf' & Hne').
  destruct (saveSetPointsToFile_defined s' f Hwf') as (saved & f' & ->).
  eauto.
Qed.

Lemma deleteSetpoints_keep rows : forall s f,
  well_formed s -> m_depths s <> [] ->
  exists s' f', deleteSetpoints rows s f = Some (s', f') /\
                well_formed s' /\ m_depths s' <> [].
Proof.
  induction rows as [|row rows IH]; intros s f Hwf Hne; simpl; [eauto|].
  destruct (deleteSetpoint_keeps row s f Hwf Hne) as (s' & f' & -> & Hwf' & Hne').
  now apply IH.
Qed.

Lemma deleteSetpoint_single row s f :
  length (m_depths s) = 1%nat -> deleteSetpoint row s f = Some (s, f).
Proof.
  intros H. unfold deleteSetpoint, nbOfSetPoints, size. rewrite H.
  destruct (_ || _); reflexivity.
Qed.

Lemma removeStopStep_erase_length row steps :
  (length steps - 1 <= length (removeStopStep_erase row steps))%nat.
Proof.
  unfold removeStopStep_erase.
  destruct (_ <? _) eqn:E; [|lia].
  rewrite erase_length; [lia|]. apply Z.ltb_lt in E.
  pose proof (word.unsigned_range (size_t_of_int row)). lia.
Qed.

Section DeleteGuards.

(** [StopSteps::removeStopStep] takes at most one entry out. *)
Variable removeStopStep : int -> list StopStep -> list StopStep.
Hypothesis removeStopStep_length : forall row steps,
  (length steps - 1 <= length (removeStopStep row steps))%nat.

Lemma deleteStopStep_keeps row w :
  m_stopSteps w <> [] -> m_stopSteps (deleteStopStep removeStopStep row w) <> [].
Proof.
  intros Hne. unfold deleteStopStep, nbOfStopSteps.
  destruct (m_isUpdating w); [assumption|]. cbn [m_stopSteps m_isUpdating].
  destruct (1 <? Z.of_nat (length (m_stopSteps w))) eqn:E;
    cbn [m_stopSteps]; [|assumption].
  apply Z.ltb_lt in E. intros H.
  pose proof (removeStopStep_length row (m_stopSteps w)) as Hlen.
  rewrite H in Hlen. simpl in Hlen. lia.
Qed.

Lemma deleteStopSteps_keep rows : forall w,
  m_stopSteps w <> [] -> m_stopSteps (deleteStopSteps removeStopStep rows w) <> [].
Proof.
  unfold deleteStopSteps.
  induction rows as [|row rows IH]; intros w Hne; simpl; [assumption|].
  now apply IH, deleteStopStep_keeps.
Qed.

(** C8: [deleteStopStep] and [deleteSetpoint] leave a list of exactly one
    element as it is, and after any sequence of them a list that had an
    entry still has one. *)
Theorem delete_keeps_an_entry :
  (forall row w step, m_stopSteps w = [step] ->
     deleteStopStep removeStopStep row w = w) /\
  (forall row s f, length (m_depths s) = 1%nat ->
     deleteSetpoint row s f = Some (s, f)) /\
  (forall rows w, m_stopSteps w <> [] ->
     m_stopSteps (deleteStopSteps removeStopStep rows w) <> []) /\
  (forall rows s f, well_formed s -> m_depths s <> [] ->
     exists s' f', deleteSetpoints rows s f = Some (s', f') /\
                   well_formed s' /\ m_depths s' <> []).
Proof.
  split; [|split; [|split]].
  - intros row [updating steps] step H. simpl in H. subst steps.
    unfold deleteStopStep. now destruct updating.
  - intros row s f. apply deleteSetpoint_single.
  - intros rows w. apply deleteStopSteps_keep.
  - intros rows s f. apply deleteSetpoints_keep.
Qed.

End DeleteGuards.

Lemma delete_keeps_an_entry_witness :
  (forall row steps,
     (length steps - 1 <= length (removeStopStep_erase row steps))%nat) /\
  m_stopSteps
    (deleteStopSteps removeStopStep_erase
       [word.of_Z 0; word.of_Z 5; word.of_Z 0; word.of_Z 0]
       (mkStopStepsState false
          [mkStopStep (Double.lit 21.0) (Double.lit 2.0);
           mkStopStep (Double.lit 6.0) (Double.lit 5.0)])) <> [] /\
  exists s' f',
    deleteSetpoints [word.of_Z 0; word.of_Z 0; word.of_Z 0; word.of_Z 0; word.of_Z 0]
      example_setpoints missing_file = Some (s', f') /\
    well_formed s' /\ m_depths s' <> [].
Proof.
  split; [exact removeStopStep_erase_length|].
  destruct (delete_keeps_an_entry removeStopStep_erase removeStopStep_erase_length)
    as (_ & _ & Hsteps & Hsetpoints).
  split.
  - apply Hsteps. discriminate.
  - apply Hsetpoints.
    + split; [reflexivity | vm_compute; reflexivity].
    + discriminate.
Defined.

(** ** The constructor of [SetPoints] *)

(** With no file the constructor reads [m_setPoints] out of range: the
    load has seeded four entries, only [m_setPoints] is cleared, and the
    first [addSetPoint] sorts five depths against one set point. *)
Lemma SetPoints_new_missing_file : SetPoints_new missing_file = None.
Proof. vm_compute. reflexivity. Qed.

(** * More properties of the code *)

(** ** Sorting what is sorted *)

(** These are facts of the insertion sort: of [std::sort] on at most
    [Std.S_threshold] elements, where the theorems below use them. *)

Section SortSortedInput.
Context {A : Type} (comp : A -> A -> bool).

Lemma insertion_step_append prefix val :
  Forall (fun x => comp val x = false) prefix ->
  Std.insertion_step comp prefix val = prefix ++ [val].
Proof.
  intros H. unfold Std.insertion_step. destruct prefix as [|first rest]; [reflexivity|].
  rewrite (Forall_inv H).
  apply Forall_rev in H.
  destruct (rev (first :: rest)) as [|next r] eqn:E.
  - apply (f_equal (@length A)) in E. rewrite length_rev in E. discriminate.
  - cbn [Std.unguarded_linear_insert]. rewrite (Forall_inv H), <- E.
    change (rev (val :: rev (first :: rest)))
      with (rev (rev (first :: rest)) ++ [val]).
    now rewrite rev_involutive.
Qed.

Lemma StronglySorted_app_before (R : A -> A -> Prop) prefix : forall val tl,
  StronglySorted R (prefix ++ val :: tl) -> Forall (fun x => R x val) prefix.
Proof.
  induction prefix as [|x prefix IH]; intros val tl H; [constructor|].
  simpl in H. apply StronglySorted_inv in H as [Hs Hx]. constructor.
  - rewrite Forall_forall in Hx. apply Hx, in_elt.
  - eapply IH, Hs.
Qed.

Lemma fold_insertion_step_sorted_input l : forall prefix,
  StronglySorted (fun x val => comp val x = false) (prefix ++ l) ->
  fold_left (Std.insertion_step comp) l prefix = prefix ++ l.
Proof.
  induction l as [|val l IH]; intros prefix H; simpl.
  - now rewrite app_nil_r.
  - rewrite insertion_step_append
      by exact (StronglySorted_app_before
                  (fun x val => comp val x = false) prefix val l H).
    rewrite IH by now rewrite <- app_assoc.
    now rewrite <- app_assoc.
Qed.

(** A range in which no element precedes an earlier one is left as it
    is. *)
Lemma sort_sorted_input l :
  StronglySorted (fun x val => comp val x = false) l -> Std.sort comp l = l.
Proof. intros H. now apply (fold_insertion_step_sorted_input l []). Qed.

End SortSortedInput.

Lemma StronglySorted_impl {A : Type} (R R' : A -> A -> Prop) l :
  (forall a b, R a b -> R' a b) -> StronglySorted R l -> StronglySorted R' l.
Proof.
  intros HR. induction 1 as [|a l Hs IH Ha]; constructor; [assumption|].
  eapply Forall_impl; [|exact Ha]. intros b. apply HR.
Qed.

Lemma nth_error_Sorted {A : Type} (R : A -> A -> Prop) l :
  (forall i x y, nth_error l i = Some x -> nth_error l (S i) = Some y -> R x y) ->
  Sorted R l.
Proof.
  induction l as [|a l IH]; intros H; constructor.
  - apply IH. intros i x y Hx Hy. exact (H (S i) x y Hx Hy).
  - destruct l as [|b l]; constructor. exact (H 0%nat a b eq_refl eq_refl).
Qed.

Section InOrder.
Import Double.

Lemma in_order_trans a b c :
  in_order a b = true -> in_order b c = true -> in_order a c = true.
Proof.
  unfold in_order, gt, ge. intros Hab Hbc.
  apply orb_true_iff in Hab as [Hab|Hab]; apply orb_true_iff in Hbc as [Hbc|Hbc];
    repeat match goal with
    | H : _ && _ = true |- _ => apply andb_true_iff in H as [? ?]
    | H : lt _ _ = true |- _ => apply lt_true in H as (? & ? & ?)
    | H : le _ _ = true |- _ => apply le_true in H as (? & ? & ?)
    | H : eq _ _ = true |- _ => apply eq_true in H as (? & ? & ?)
    end;
    rewrite ?lt_numbers, ?eq_numbers, ?le_numbers by assumption;
    apply orb_true_iff; first [left; lia | right; apply andb_true_iff; split; lia].
Qed.

Lemma in_order_comp a b : in_order a b = true -> comp b a = false.
Proof.
  unfold in_order, comp, gt, ge. intros Hab.
  apply orb_true_iff in Hab as [Hab|Hab];
    repeat match goal with
    | H : _ && _ = true |- _ => apply andb_true_iff in H as [? ?]
    | H : lt _ _ = true |- _ => apply lt_true in H as (? & ? & ?)
    | H : le _ _ = true |- _ => apply le_true in H as (? & ? & ?)
    | H : eq _ _ = true |- _ => apply eq_true in H as (? & ? & ?)
    end.
  - rewrite eq_numbers by assumption.
    replace (ord_key (fst b) =? ord_key (fst a)) with false by lia.
    rewrite lt_numbers by assumption. lia.
  - rewrite eq_numbers by assumption.
    replace (ord_key (fst b) =? ord_key (fst a)) with true by lia.
    rewrite lt_numbers by assumption. lia.
Qed.

End InOrder.

Lemma nth_error_entries_inv s i d sp :
  nth_error (entries s) i = Some (d, sp) ->
  nth_error (m_depths s) i = Some d /\ nth_error (m_setPoints s) i = Some sp.
Proof.
  unfold entries. destruct s as [depths setPoints]. simpl. revert setPoints i.
  induction depths as [|d0 depths IH]; intros [|sp0 setPoints] [|i]; simpl;
    try discriminate.
  - now intros [= -> ->].
  - apply IH.
Qed.

Lemma sort_order_Sorted s :
  sort_order s -> Sorted (fun a b => in_order a b = true) (entries s).
Proof.
  intros H. apply nth_error_Sorted. intros i [d sp] [d' sp'] Hx Hy.
  apply nth_error_entries_inv in Hx as [? ?], Hy as [? ?]. eapply H; eassumption.
Qed.

Lemma Sorted_sort_order s :
  Sorted (fun a b => in_order a b = true) (entries s) -> sort_order s.
Proof.
  intros H i d d' sp sp' H1 H2 H3 H4.
  exact (Sorted_nth_error _ _ H i (d, sp) (d', sp')
           (nth_error_entries s i d sp H1 H3) (nth_error_entries s _ d' sp' H2 H4)).
Qed.

Lemma in_order_StronglySorted l :
  Sorted (fun a b => in_order a b = true) l ->
  StronglySorted (fun a b => in_order a b = true) l.
Proof.
  apply Sorted_StronglySorted. intros a b c. apply in_order_trans.
Qed.

Lemma mkSetPoints_entries s :
  length (m_depths s) = length (m_setPoints s) ->
  mkSetPoints (map fst (entries s)) (map snd (entries s)) = s.
Proof.
  intros H. unfold entries. rewrite map_fst_combine, map_snd_combine by assumption.
  now destruct s.
Qed.

Lemma sortSetPoints_fixed s :
  length (m_depths s) = length (m_setPoints s) -> sort_order s ->
  sortSetPoints s = Some s.
Proof.
  intros Hlen Hs. rewrite sortSetPoints_sorted_state by lia. f_equal.
  unfold sorted_state. rewrite sort_sorted_input.
  - now apply mkSetPoints_entries.
  - eapply StronglySorted_impl;
      [|apply in_order_StronglySorted, sort_order_Sorted, Hs].
    intros a b. apply in_order_comp.
Qed.

Lemma sortSetPoints_twice s s' :
  length (m_depths s) = length (m_setPoints s) ->
  Forall is_number (m_depths s) -> Forall is_number (m_setPoints s) ->
  sortSetPoints s = Some s' -> sortSetPoints s' = Some s'.
Proof.
  intros Hlen Hd Hp Hs. rewrite sortSetPoints_sorted_state in Hs by lia.
  injection Hs as <-. apply sortSetPoints_fixed.
  - destruct (sorted_state_lengths s Hlen). congruence.
  - now apply sorted_state_sort_order.
Qed.

Lemma default_setpoints_sort_order : sort_order default_setpoints.
Proof. apply Sorted_sort_order. repeat constructor. Qed.

(** X1: [sortSetPoints] leaves a list of at most 16 entries (on which
    [std::sort] is the insertion sort alone) that is in the sort order
    exactly as it is; so sorting such a list of numbers a second time
    changes nothing. *)
Theorem sortSetPoints_idempotent s :
  length (m_depths s) = length (m_setPoints s) ->
  (length (m_depths s) <= Std.S_threshold)%nat ->
  (sort_order s -> sortSetPoints s = Some s) /\
  (Forall is_number (m_depths s) -> Forall is_number (m_setPoints s) ->
   exists s', sortSetPoints s = Some s' /\ sortSetPoints s' = Some s').
Proof.
  intros Hlen _. split.
  - now apply sortSetPoints_fixed.
  - intros Hd Hp. exists (sorted_state s).
    assert (Hs : sortSetPoints s = Some (sorted_state s))
      by (apply sortSetPoints_sorted_state; lia).
    split; [assumption|]. now apply (sortSetPoints_twice s).
Qed.

Lemma sortSetPoints_idempotent_witness :
  sortSetPoints default_setpoints = Some default_setpoints /\
  exists s', sortSetPoints example_setpoints = Some s' /\
             sortSetPoints s' = Some s'.
Proof.
  split.
  - apply (proj1 (sortSetPoints_idempotent default_setpoints eq_refl
                    ltac:(vm_compute; lia))).
    exact default_setpoints_sort_order.
  - apply (proj2 (sortSetPoints_idempotent example_setpoints eq_refl
                    ltac:(vm_compute; lia)));
      repeat constructor.
Defined.

(** ** More of [getSetPointAtDepth] *)

Lemma sorted_state_setpoints s :
  length (m_depths s) = length (m_setPoints s) ->
  Permutation (m_setPoints s) (m_setPoints (sorted_state s)).
Proof.
  intros H. simpl. rewrite <- (map_snd_combine (m_depths s) (m_setPoints s) H) at 1.
  apply Permutation_map, sort_perm.
Qed.

(** X2: on a list with at least one entry the call returns, for every
    depth (a NaN too) and either flag, one of the set points of the list,
    and it leaves the entries of the list, rearranged. *)
Theorem getSetPointAtDepth_returns_an_entry g depth boosted s :
  well_formed s -> m_depths s <> [] ->
  exists s' setpoint,
    getSetPointAtDepth g depth boosted s = Some (s', setpoint) /\
    In setpoint (m_setPoints s) /\
    Permutation (entries s) (entries s').
Proof.
  intros Hwf Hne.
  destruct (getSetPointAtDepth_cases g depth boosted s Hwf Hne)
    as (d0 & sp0 & dl & spl & E0 & P0 & El & Pl & Hcall).
  assert (Hin : forall k v, nth_error (m_setPoints (sorted_state s)) k = Some v ->
                            In v (m_setPoints s)).
  { intros k v Hv. apply nth_error_In in Hv.
    eapply Permutation_in; [symmetry; apply sorted_state_setpoints, Hwf | exact Hv]. }
  assert (Hperm : Permutation (entries s) (entries (sorted_state s)))
    by (rewrite entries_sorted_state; apply sort_perm).
  exists (sorted_state s). unfold getSetPointAtDepth. rewrite Hcall.
  destruct (Double.ge depth d0 || negb boosted); [eauto|].
  destruct (Double.lt depth dl); [eauto|].
  destruct (scan depth (sorted_state s) 0 _) as [[[i sp]|]|] eqn:E.
  - apply scan_found in E as (_ & _ & Hsp & _). eauto.
  - eauto.
  - exfalso. revert E. apply scan_defined.
    + apply (sorted_state_well_formed s Hwf).
    + assert (m_depths (sorted_state s) <> [])
        by (intros H; rewrite H in E0; discriminate).
      destruct (m_depths (sorted_state s)); [congruence | simpl; lia].
Qed.

Lemma getSetPointAtDepth_returns_an_entry_witness :
  exists s' setpoint,
    getSetPointAtDepth example_parameters (Double.lit nan) true example_setpoints
      = Some (s', setpoint) /\
    In setpoint (m_setPoints example_setpoints) /\
    Permutation (entries example_setpoints) (entries s').
Proof.
  apply (getSetPointAtDepth_returns_an_entry example_parameters (Double.lit nan)
           true example_setpoints example_setpoints_well_formed).
  discriminate.
Defined.

Lemma getSetPointAtDepth_state g depth boosted s s' setpoint :
  getSetPointAtDepth g depth boosted s = Some (s', setpoint) ->
  sortSetPoints s = Some s'.
Proof.
  unfold getSetPointAtDepth, getSetPointAtDepth_return.
  destruct (sortSetPoints s) as [t|]; [|discriminate]. intros H. f_equal.
  repeat match type of H with
         | context [match ?x with _ => _ end] =>
             lazymatch x with
             | context [match _ with _ => _ end] => fail
             | _ => destruct x
             end
         end; try discriminate; now injection H.
Qed.

Lemma getSetPointAtDepth_sorted g depth boosted s t :
  sortSetPoints s = sortSetPoints t ->
  getSetPointAtDepth g depth boosted s = getSetPointAtDepth g depth boosted t.
Proof.
  intros H. unfold getSetPointAtDepth, getSetPointAtDepth_return. now rewrite H.
Qed.

(** X3: asked again on the vectors the first call left, a call on a list
    of at most 16 entries (on which [std::sort] is the insertion sort
    alone) that are numbers gives the same set point and leaves the
    vectors as they are. *)
Theorem getSetPointAtDepth_again g depth boosted s s' setpoint :
  length (m_depths s) = length (m_setPoints s) ->
  (length (m_depths s) <= Std.S_threshold)%nat ->
  Forall is_number (m_depths s) -> Forall is_number (m_setPoints s) ->
  getSetPointAtDepth g depth boosted s = Some (s', setpoint) ->
  getSetPointAtDepth g depth boosted s' = Some (s', setpoint).
Proof.
  intros Hlen _ Hd Hp Hcall. rewrite <- Hcall. apply getSetPointAtDepth_sorted.
  apply getSetPointAtDepth_state in Hcall. rewrite Hcall.
  now apply (sortSetPoints_twice s).
Qed.

Lemma getSetPointAtDepth_again_witness :
  getSetPointAtDepth example_parameters (Double.lit 30.0) true default_setpoints
  = Some (default_setpoints, Double.lit 1.4).
Proof.
  apply (getSetPointAtDepth_again example_parameters (Double.lit 30.0) true
           example_setpoints default_setpoints (Double.lit 1.4)).
  - reflexivity.
  - vm_compute. lia.
  - repeat constructor.
  - repeat constructor.
  - vm_compute. reflexivity.
Defined.





(** ** More of [removeSetPoint] *)

Lemma erase_In {A : Type} (l : list A) : forall index x,
  In x (Std.erase index l) -> In x l.
Proof.
  induction l as [|y l IH]; intros [|index] x H; simpl in *; auto.
  destruct H as [->|H]; eauto.
Qed.

Lemma erase_StronglySorted {A : Type} (R : A -> A -> Prop) l :
  StronglySorted R l -> forall index, StronglySorted R (Std.erase index l).
Proof.
  induction 1 as [|a l Hs IH Ha]; intros [|index]; simpl;
    try constructor; auto.
  apply Forall_forall. intros x Hx. apply erase_In in Hx.
  rewrite Forall_forall in Ha. auto.
Qed.

Lemma erase_combine {A B : Type} (l : list A) : forall (l' : list B) index,
  combine (Std.erase index l) (Std.erase index l') = Std.erase index (combine l l').
Proof.
  induction l as [|a l IH]; intros [|b l'] [|index]; simpl;
    try reflexivity; try (now destruct l); now rewrite IH.
Qed.

(** X5: [removeSetPoint] keeps the sort order: what is left of a list in
    the sort order is in the sort order, without another sort. *)
Theorem removeSetPoint_keeps_sort_order index s s' :
  sort_order s -> removeSetPoint index s = Some s' -> sort_order s'.
Proof.
  intros Hs. unfold removeSetPoint.
  destruct (index <? length (m_depths s))%nat; [|now intros [= <-]].
  destruct (index <? length (m_setPoints s))%nat; [|discriminate].
  intros [= <-]. apply Sorted_sort_order. unfold entries. cbn [m_depths m_setPoints].
  rewrite erase_combine.
  apply StronglySorted_Sorted, erase_StronglySorted, in_order_StronglySorted.
  now apply sort_order_Sorted.
Qed.

Lemma removeSetPoint_keeps_sort_order_witness :
  sort_order (mkSetPoints [Double.lit 1000.0; Double.lit 21.0; Double.lit 6.0]
                          [Double.lit 1.3; Double.lit 1.5; Double.lit 1.6]).
Proof.
  apply (removeSetPoint_keeps_sort_order 1 default_setpoints).
  - exact default_setpoints_sort_order.
  - reflexivity.
Defined.

(** ** More of the persistence of the set points *)

Lemma saveSetPointsToFile_image s f :
  Std.can_write f = true -> well_formed s ->
  saveSetPointsToFile s f = Some (true, Std.write_file (setpoints_file s) f).
Proof.
  intros Hw [Hlen Hsz]. unfold saveSetPointsToFile, setpoints_file, nbOfSetPoints.
  now rewrite Hw, size_unsigned, write_setpoints_entries by auto.
Qed.

Lemma loadSetPointsFromFile_image s s0 f junk :
  Std.can_read f = true -> Std.contents f = Some (setpoints_file s ++ junk) ->
  well_formed s -> m_depths s <> [] ->
  loadSetPointsFromFile s0 f = Some (true, s, f).
Proof.
  intros Hr Hc [Hlen Hsz] Hne.
  unfold loadSetPointsFromFile, setpoints_file, nbOfSetPoints in *.
  rewrite Hc, Hr, <- app_assoc.
  rewrite read_uninit_whole by apply bytes_of_size_t_length.
  rewrite size_t_of_bytes_of_size_t, size_unsigned by assumption.
  rewrite <- (entries_length s Hlen), read_setpoints_entries.
  cbn [m_depths m_setPoints app]. unfold entries.
  rewrite map_fst_combine, map_snd_combine by assumption.
  destruct s as [[|d depths] setPoints]; [contradiction|]. reflexivity.
Qed.

Lemma setpoints_file_length s :
  length (m_depths s) = length (m_setPoints s) ->
  length (setpoints_file s) = (8 + 16 * length (m_depths s))%nat.
Proof.
  intros Hlen. unfold setpoints_file.
  rewrite length_app, bytes_of_size_t_length, <- (entries_length s Hlen).
  f_equal. induction (entries s) as [|e l IH]; [reflexivity|].
  cbn [flat_map length]. rewrite length_app, IH. unfold bytes_of_entry.
  rewrite length_app, !bytes_of_double_length. lia.
Qed.

(** X6: the file that [saveSetPointsToFile] writes is the count, in 8
    bytes, and then 16 bytes for each entry, depth before set point; a
    load takes a file that starts so, whatever follows the last entry. *)
Theorem setpoints_file_layout s s0 f junk :
  well_formed s ->
  length (setpoints_file s) = (8 + 16 * length (m_depths s))%nat /\
  (Std.can_write f = true ->
   saveSetPointsToFile s f = Some (true, Std.write_file (setpoints_file s) f)) /\
  (Std.can_read f = true -> Std.contents f = Some (setpoints_file s ++ junk) ->
   m_depths s <> [] -> loadSetPointsFromFile s0 f = Some (true, s, f)).
Proof.
  intros Hwf. split; [apply setpoints_file_length, Hwf|]. split.
  - intros Hw. now apply saveSetPointsToFile_image.
  - intros Hr Hc Hne. now apply (loadSetPointsFromFile_image s s0 f junk).
Qed.

Lemma setpoints_file_layout_witness :
  length (setpoints_file example_setpoints) = 72%nat /\
  saveSetPointsToFile example_setpoints missing_file
  = Some (true, Std.write_file (setpoints_file example_setpoints) missing_file) /\
  loadSetPointsFromFile no_setpoints
    (Std.mkFile (Some (setpoints_file example_setpoints ++ [Byte.x2a; Byte.x2a]))
       true false)
  = Some (true, example_setpoints,
          Std.mkFile (Some (setpoints_file example_setpoints ++ [Byte.x2a; Byte.x2a]))
            true false).
Proof.
  destruct (setpoints_file_layout example_setpoints no_setpoints missing_file
              [Byte.x2a; Byte.x2a] example_setpoints_well_formed) as (Hl & Hs & _).
  split; [exact Hl|]. split; [exact (Hs eq_refl)|].
  apply (proj2 (proj2 (setpoints_file_layout example_setpoints no_setpoints
                         (Std.mkFile
                            (Some (setpoints_file example_setpoints
                                   ++ [Byte.x2a; Byte.x2a])) true false)
                         [Byte.x2a; Byte.x2a] example_setpoints_well_formed)));
    [reflexivity | reflexivity | discriminate].
Defined.

Lemma read_uninit_short n f :
  (length (Std.pending f) < n)%nat -> Std.read_uninit n f = None.
Proof.
  intros H. unfold Std.read_uninit, Std.read. destruct f as [pending [|]]; simpl in *.
  - now replace (n <=? length pending)%nat with false by (symmetry; apply Nat.leb_gt; lia).
  - reflexivity.
Qed.

Lemma read_uninit_enough n pending :
  (n <= length pending)%nat ->
  Std.read_uninit n (Std.mkIfstream pending true)
  = Some (firstn n pending, Std.mkIfstream (skipn n pending) true).
Proof.
  intros H. unfold Std.read_uninit, Std.read. simpl.
  now replace (n <=? length pending)%nat with true by (symmetry; apply Nat.leb_le; lia).
Qed.

Lemma read_setpoints_short iters : forall pending s,
  (length pending < 16 * iters)%nat ->
  read_setpoints iters (Std.mkIfstream pending true) s = None.
Proof.
  induction iters as [|iters IH]; intros pending s H; [lia|].
  cbn [read_setpoints].
  destruct (Nat.lt_ge_cases (length pending) 8) as [H8|H8].
  - now rewrite read_uninit_short.
  - rewrite read_uninit_enough by assumption.
    destruct (Nat.lt_ge_cases (length (skipn 8 pending)) 8) as [H16|H16].
    + now rewrite read_uninit_short.
    + rewrite read_uninit_enough by assumption. apply IH.
      rewrite !length_skipn in *. lia.
Qed.

(** X7: a set point file that ends before the count, or before the last
    entry the count announces, makes the load use values that were never
    read: the call is undefined. *)
Theorem loadSetPointsFromFile_short_file s0 f data :
  Std.can_read f = true -> Std.contents f = Some data ->
  ((length data < 8)%nat \/
   exists count rest, data = bytes_of_size_t count ++ rest /\
     Z.of_nat (length rest) < 16 * word.unsigned count) ->
  loadSetPointsFromFile s0 f = None.
Proof.
  intros Hr Hc Hshort. unfold loadSetPointsFromFile. rewrite Hc, Hr.
  destruct Hshort as [H|(count & rest & -> & H)].
  - now rewrite read_uninit_short.
  - rewrite read_uninit_whole by apply bytes_of_size_t_length.
    rewrite size_t_of_bytes_of_size_t, read_setpoints_short; [reflexivity|].
    pose proof (word.unsigned_range count). lia.
Qed.

Lemma loadSetPointsFromFile_short_file_witness :
  loadSetPointsFromFile no_setpoints
    (Std.mkFile (Some (bytes_of_size_t (word.of_Z 2)
                       ++ bytes_of_entry (Double.lit 40.0, Double.lit 1.4)))
       true true) = None.
Proof.
  apply (loadSetPointsFromFile_short_file no_setpoints _
           (bytes_of_size_t (word.of_Z 2)
            ++ bytes_of_entry (Double.lit 40.0, Double.lit 1.4)));
    [reflexivity | reflexivity |].
  right. exists (word.of_Z 2), (bytes_of_entry (Double.lit 40.0, Double.lit 1.4)).
  split; [reflexivity | vm_compute; reflexivity].
Defined.

(** X8: the constructor of [SetPoints]. With no file its second seeding
    of the defaults reads [m_setPoints] out of range; with a file that
    cannot be opened it leaves the four defaults. *)
Theorem SetPoints_new_without_data data readable writable :
  SetPoints_new (Std.mkFile None readable writable) = None /\
  SetPoints_new (Std.mkFile (Some data) false writable)
  = Some (default_setpoints, Std.mkFile (Some data) false writable).
Proof.
  split.
  - destruct readable, writable; vm_compute; reflexivity.
  - unfold SetPoints_new, loadSetPointsFromFile.
    cbn [Std.contents Std.can_read m_depths].
    replace (setToDefault (mkSetPoints [] [])) with (Some default_setpoints)
      by (vm_compute; reflexivity).
    replace (sortSetPoints default_setpoints) with (Some default_setpoints)
      by (vm_compute; reflexivity).
    reflexivity.
Qed.

(** X9: the constructor of [SetPoints] on a file that holds a list with
    at least one entry leaves that list, sorted. *)
Theorem SetPoints_new_from_file s f junk :
  Std.can_read f = true -> Std.contents f = Some (setpoints_file s ++ junk) ->
  well_formed s -> m_depths s <> [] ->
  exists s', sortSetPoints s = Some s' /\ SetPoints_new f = Some (s', f) /\
             Permutation (entries s) (entries s').
Proof.
  intros Hr Hc Hwf Hne. exists (sorted_state s).
  assert (Hs : sortSetPoints s = Some (sorted_state s))
    by (apply sortSetPoints_sorted_state; destruct Hwf; lia).
  split; [assumption|]. split.
  - unfold SetPoints_new.
    rewrite (loadSetPointsFromFile_image s _ f junk Hr Hc Hwf Hne). now rewrite Hs.
  - rewrite entries_sorted_state. apply sort_perm.
Qed.

Lemma SetPoints_new_from_file_witness :
  exists s',
    sortSetPoints example_setpoints = Some s' /\
    SetPoints_new (Std.mkFile (Some (setpoints_file example_setpoints ++ [])) true true)
    = Some (s', Std.mkFile (Some (setpoints_file example_setpoints ++ [])) true true) /\
    Permutation (entries example_setpoints) (entries s').
Proof.
  apply (SetPoints_new_from_file example_setpoints _ []);
    [reflexivity | reflexivity | exact example_setpoints_well_formed | discriminate].
Defined.

(** ** More of the persistence of the gas list *)

Section GasListFiles.

Variables (BOTTOM : GasType) (ACTIVE : GasStatus) (max_size : Z).

Lemma read_into_failed buf pending :
  Std.read_into buf (Std.mkIfstream pending false) = (buf, Std.mkIfstream pending false).
Proof. reflexivity. Qed.

Lemma read_into_at_end buf :
  buf <> [] ->
  Std.read_into buf (Std.mkIfstream [] true) = (buf, Std.mkIfstream [] false).
Proof.
  intros H. destruct buf as [|b buf]; [contradiction|].
  unfold Std.read_into, Std.read, Std.store. reflexivity.
Qed.

Lemma bytes_of_double_not_nil d : bytes_of_double d <> [].
Proof.
  intros H. apply (f_equal (@length byte)) in H.
  rewrite bytes_of_double_length in H. discriminate.
Qed.

Lemma unread_gas_of_bytes :
  mkGas (double_of_bytes (bytes_of_double (Double.lit 0.0)))
        (double_of_bytes (bytes_of_double (Double.lit 0.0)))
        (enum_of_bytes (bytes_of_enum BOTTOM)) (enum_of_bytes (bytes_of_enum ACTIVE))
  = unread_gas BOTTOM ACTIVE.
Proof.
  now rewrite !double_of_bytes_of_double, !enum_of_bytes_of_enum.
Qed.

Lemma read_gases_failed iters : forall pending loaded,
  read_gases BOTTOM ACTIVE iters (Std.mkIfstream pending false) loaded
  = loaded ++ repeat (unread_gas BOTTOM ACTIVE) iters.
Proof.
  induction iters as [|iters IH]; intros pending loaded; cbn [read_gases repeat].
  - now rewrite app_nil_r.
  - rewrite !read_into_failed, IH. unfold addGas.
    now rewrite unread_gas_of_bytes, <- app_assoc.
Qed.

Lemma read_gases_at_end iters : forall loaded,
  read_gases BOTTOM ACTIVE iters (Std.mkIfstream [] true) loaded
  = loaded ++ repeat (unread_gas BOTTOM ACTIVE) iters.
Proof.
  destruct iters as [|iters]; intros loaded; cbn [read_gases repeat].
  - now rewrite app_nil_r.
  - rewrite read_into_at_end by apply bytes_of_double_not_nil.
    rewrite !read_into_failed, read_gases_failed. unfold addGas.
    now rewrite unread_gas_of_bytes, <- app_assoc.
Qed.

Lemma read_gases_records gases iters : forall rest loaded,
  read_gases BOTTOM ACTIVE (length gases + iters)
    (Std.mkIfstream (flat_map bytes_of_gas gases ++ rest) true) loaded
  = read_gases BOTTOM ACTIVE iters (Std.mkIfstream rest true) (loaded ++ gases).
Proof.
  induction gases as [|gas gases IH]; intros rest loaded;
    cbn [length flat_map read_gases Nat.add].
  - now rewrite app_nil_r.
  - unfold bytes_of_gas at 1. rewrite <- !app_assoc.
    rewrite read_into_whole by now rewrite !bytes_of_double_length.
    rewrite read_into_whole by now rewrite !bytes_of_double_length.
    rewrite read_into_whole by now rewrite !bytes_of_enum_length.
    rewrite read_into_whole by now rewrite !bytes_of_enum_length.
    rewrite IH. unfold addGas.
    rewrite !double_of_bytes_of_double, !enum_of_bytes_of_enum, <- app_assoc.
    now destruct gas.
Qed.

Lemma loadGaslistFromFile_count gases0 f count rest :
  Std.can_read f = true -> Std.contents f = Some (bytes_of_size_t count ++ rest) ->
  loadGaslistFromFile BOTTOM ACTIVE max_size gases0 f
  = if max_size <? word.unsigned count then (false, [], f)
    else (true, read_gases BOTTOM ACTIVE (Z.to_nat (word.unsigned count))
                  (Std.mkIfstream rest true) [], f).
Proof.
  intros Hr Hc. unfold loadGaslistFromFile. rewrite Hc, Hr.
  rewrite read_into_whole by now rewrite !bytes_of_size_t_length.
  now rewrite size_t_of_bytes_of_size_t.
Qed.

(** X10: a gas list file whose count announces more gases than the file
    holds is not reported when [reserve] accepts the count (a count of
    at most [max_size]: no [std::length_error] and no [std::bad_alloc]):
    the load returns true, and the list is the gases of the file followed
    by one gas (0, 0, BOTTOM, ACTIVE) for each missing record. *)
Theorem loadGaslistFromFile_missing_records gases0 gases count f :
  Std.can_read f = true ->
  Std.contents f = Some (bytes_of_size_t count ++ flat_map bytes_of_gas gases) ->
  Z.of_nat (length gases) <= word.unsigned count <= max_size ->
  loadGaslistFromFile BOTTOM ACTIVE max_size gases0 f
  = (true,
     gases ++ repeat (unread_gas BOTTOM ACTIVE)
                (Z.to_nat (word.unsigned count) - length gases),
     f).
Proof.
  intros Hr Hc Hcount.
  rewrite (loadGaslistFromFile_count gases0 f count _ Hr Hc).
  replace (max_size <? word.unsigned count) with false by lia.
  replace (Z.to_nat (word.unsigned count))
    with (length gases + (Z.to_nat (word.unsigned count) - length gases))%nat at 1
    by lia.
  rewrite <- (app_nil_r (flat_map _ _)), read_gases_records, read_gases_at_end.
  reflexivity.
Qed.

(** X11: a count greater than [max_size], and so every count greater
    than the [max_size()] of the vector, makes [reserve] throw: the load
    returns false and leaves the list empty, whatever the list was and
    whatever follows the count in the file. *)
Theorem loadGaslistFromFile_count_too_large gases0 count rest f :
  Std.can_read f = true -> Std.contents f = Some (bytes_of_size_t count ++ rest) ->
  max_size < word.unsigned count ->
  loadGaslistFromFile BOTTOM ACTIVE max_size gases0 f = (false, [], f).
Proof.
  intros Hr Hc Hcount.
  rewrite (loadGaslistFromFile_count gases0 f count rest Hr Hc).
  now replace (max_size <? word.unsigned count) with true by lia.
Qed.

Lemma gaslist_file_length gases :
  length (gaslist_file gases) = (8 + 24 * length gases)%nat.
Proof.
  unfold gaslist_file. rewrite length_app, bytes_of_size_t_length. f_equal.
  induction gases as [|gas gases IH]; [reflexivity|].
  cbn [flat_map length]. rewrite length_app, IH. unfold bytes_of_gas.
  rewrite !length_app, !bytes_of_double_length, !bytes_of_enum_length. lia.
Qed.

Lemma loadGaslistFromFile_image gases gases0 f junk :
  Std.can_read f = true -> Std.contents f = Some (gaslist_file gases ++ junk) ->
  Z.of_nat (length gases) <= max_size -> max_size < 2 ^ 64 ->
  loadGaslistFromFile BOTTOM ACTIVE max_size gases0 f = (true, gases, f).
Proof.
  intros Hr Hc Hmax Hsz. unfold gaslist_file in Hc. rewrite <- app_assoc in Hc.
  rewrite (loadGaslistFromFile_count gases0 f _ _ Hr Hc).
  assert (Hcount : word.unsigned (size gases) = Z.of_nat (length gases)).
  { unfold size. rewrite word.unsigned_of_Z. unfold word.wrap.
    apply Z.mod_small. lia. }
  rewrite Hcount, Nat2Z.id.
  replace (max_size <? Z.of_nat (length gases)) with false by lia.
  now rewrite read_gases_whole.
Qed.

(** X12: the gas list file is the count, in 8 bytes, and then 24 bytes
    for each gas (two doubles and two 4-byte enumerations); a load takes
    a file that starts so, whatever follows the last gas, and replaces
    the list it had. *)
Theorem gaslist_file_layout gases gases0 f junk :
  Z.of_nat (length gases) <= max_size -> max_size < 2 ^ 64 ->
  length (gaslist_file gases) = (8 + 24 * length gases)%nat /\
  (Std.can_write f = true ->
   saveGaslistToFile gases f = (true, Std.write_file (gaslist_file gases) f)) /\
  (Std.can_read f = true -> Std.contents f = Some (gaslist_file gases ++ junk) ->
   loadGaslistFromFile BOTTOM ACTIVE max_size gases0 f = (true, gases, f)).
Proof.
  intros Hmax Hsz. split; [apply gaslist_file_length|]. split.
  - intros Hw. unfold saveGaslistToFile. now rewrite Hw.
  - intros Hr Hc. now apply (loadGaslistFromFile_image gases gases0 f junk).
Qed.

End GasListFiles.

Lemma loadGaslistFromFile_missing_records_witness :
  loadGaslistFromFile (word.of_Z 0) (word.of_Z 0) 1000
    [mkGas (Double.lit 50.0) (Double.lit 0.0) (word.of_Z 1) (word.of_Z 1)]
    (Std.mkFile
       (Some (bytes_of_size_t (word.of_Z 3) ++
              flat_map bytes_of_gas
                [mkGas (Double.lit 21.0) (Double.lit 35.0) (word.of_Z 0) (word.of_Z 0)]))
       true true)
  = (true,
     [mkGas (Double.lit 21.0) (Double.lit 35.0) (word.of_Z 0) (word.of_Z 0);
      unread_gas (word.of_Z 0) (word.of_Z 0); unread_gas (word.of_Z 0) (word.of_Z 0)],
     Std.mkFile
       (Some (bytes_of_size_t (word.of_Z 3) ++
              flat_map bytes_of_gas
                [mkGas (Double.lit 21.0) (Double.lit 35.0) (word.of_Z 0) (word.of_Z 0)]))
       true true).
Proof.
  apply (loadGaslistFromFile_missing_records (word.of_Z 0) (word.of_Z 0) 1000
           _ [mkGas (Double.lit 21.0) (Double.lit 35.0) (word.of_Z 0) (word.of_Z 0)]
           (word.of_Z 3));
    [reflexivity | reflexivity | vm_compute; split; discriminate].
Defined.

Lemma loadGaslistFromFile_count_too_large_witness :
  loadGaslistFromFile (word.of_Z 0) (word.of_Z 0) (2 ^ 58)
    [mkGas (Double.lit 50.0) (Double.lit 0.0) (word.of_Z 1) (word.of_Z 1)]
    (Std.mkFile (Some (bytes_of_size_t (word.of_Z (2 ^ 60)) ++ [Byte.x2a])) true true)
  = (false, [],
     Std.mkFile (Some (bytes_of_size_t (word.of_Z (2 ^ 60)) ++ [Byte.x2a])) true true).
Proof.
  apply (loadGaslistFromFile_count_too_large (word.of_Z 0) (word.of_Z 0) (2 ^ 58)
           _ (word.of_Z (2 ^ 60)) [Byte.x2a]);
    [reflexivity | reflexivity | vm_compute; reflexivity].
Defined.

Lemma gaslist_file_layout_witness :
  length (gaslist_file
            [mkGas (Double.lit 21.0) (Double.lit 35.0) (word.of_Z 0) (word.of_Z 0)])
  = 32%nat /\
  loadGaslistFromFile (word.of_Z 0) (word.of_Z 0) (2 ^ 58) []
    (Std.mkFile
       (Some (gaslist_file
                [mkGas (Double.lit 21.0) (Double.lit 35.0) (word.of_Z 0) (word.of_Z 0)]
              ++ [Byte.x2a])) true false)
  = (true, [mkGas (Double.lit 21.0) (Double.lit 35.0) (word.of_Z 0) (word.of_Z 0)],
     Std.mkFile
       (Some (gaslist_file
                [mkGas (Double.lit 21.0) (Double.lit 35.0) (word.of_Z 0) (word.of_Z 0)]
              ++ [Byte.x2a])) true false).
Proof.
  destruct (gaslist_file_layout (word.of_Z 0) (word.of_Z 0) (2 ^ 58)
              [mkGas (Double.lit 21.0) (Double.lit 35.0) (word.of_Z 0) (word.of_Z 0)] []
              (Std.mkFile
                 (Some (gaslist_file
                          [mkGas (Double.lit 21.0) (Double.lit 35.0)
                             (word.of_Z 0) (word.of_Z 0)]
                        ++ [Byte.x2a])) true false)
              [Byte.x2a]) as (Hl & _ & Hload);
    [vm_compute; discriminate | reflexivity |].
  split; [exact Hl | exact (Hload eq_refl eq_refl)].
Defined.

Lemma default_setpoints_well_formed : well_formed default_setpoints.
Proof. split; [reflexivity | vm_compute; reflexivity]. Qed.

(** X13: the first load, with no file yet, establishes the file: it
    returns false, and the next load, from whatever list, returns true
    with the list the first one left: the gas list as it was, or the gas
    (21, 0, BOTTOM, ACTIVE) when it was empty, and the four default set
    points. *)
Theorem first_load_establishes_the_files BOTTOM ACTIVE max_size gases0 gases1
    s0 s1 f :
  Std.contents f = None -> accessible f ->
  Z.of_nat (length gases0) <= max_size -> 1 <= max_size < 2 ^ 64 ->
  (exists gases f',
     loadGaslistFromFile BOTTOM ACTIVE max_size gases0 f = (false, gases, f') /\
     gases = match gases0 with [] => [default_gas BOTTOM ACTIVE] | _ :: _ => gases0 end /\
     loadGaslistFromFile BOTTOM ACTIVE max_size gases1 f' = (true, gases, f')) /\
  (exists f',
     loadSetPointsFromFile s0 f = Some (false, default_setpoints, f') /\
     loadSetPointsFromFile s1 f' = Some (true, default_setpoints, f')).
Proof.
  intros Hc [Hr Hw] Hlen Hmax. split.
  - unfold loadGaslistFromFile at 1. rewrite Hc.
    set (gases := match gases0 with
                  | [] => addGas _ _ BOTTOM ACTIVE gases0
                  | _ :: _ => gases0
                  end).
    assert (Hgases : gases = match gases0 with
                             | [] => [default_gas BOTTOM ACTIVE]
                             | _ :: _ => gases0
                             end) by (subst gases; now destruct gases0).
    unfold saveGaslistToFile. rewrite Hw.
    eexists gases, _. split; [reflexivity|]. split; [exact Hgases|].
    apply (loadGaslistFromFile_image BOTTOM ACTIVE max_size gases gases1 _ []);
      [exact Hr | cbn [Std.write_file Std.contents]; now rewrite app_nil_r | | lia].
    rewrite Hgases. destruct gases0; [simpl; lia | exact Hlen].
  - unfold loadSetPointsFromFile at 1. rewrite Hc.
    replace (setToDefault (mkSetPoints [] [])) with (Some default_setpoints)
      by (vm_compute; reflexivity).
    rewrite (saveSetPointsToFile_image default_setpoints f Hw
               default_setpoints_well_formed).
    eexists. split; [reflexivity|].
    apply (loadSetPointsFromFile_image default_setpoints s1 _ []);
      [exact Hr | cbn [Std.write_file Std.contents]; now rewrite app_nil_r
      | exact default_setpoints_well_formed | discriminate].
Qed.

Lemma first_load_establishes_the_files_witness :
  (exists gases f',
     loadGaslistFromFile (word.of_Z 0) (word.of_Z 0) (2 ^ 58) [] missing_file
     = (false, gases, f') /\
     gases = [default_gas (word.of_Z 0) (word.of_Z 0)] /\
     loadGaslistFromFile (word.of_Z 0) (word.of_Z 0) (2 ^ 58) [] f'
     = (true, gases, f')) /\
  (exists f',
     loadSetPointsFromFile no_setpoints missing_file
     = Some (false, default_setpoints, f') /\
     loadSetPointsFromFile example_setpoints f' = Some (true, default_setpoints, f')).
Proof.
  apply (first_load_establishes_the_files (word.of_Z 0) (word.of_Z 0) (2 ^ 58) [] []
           no_setpoints example_setpoints missing_file);
    [reflexivity | split; reflexivity | vm_compute; discriminate
    | split; vm_compute; [discriminate | reflexivity]].
Defined.

(** ** More of the handlers of the set point table *)

Lemma signed_int_of_size {A : Type} (v : list A) :
  Z.of_nat (length v) < 2 ^ 31 ->
  word.signed (int_of_size_t (size v)) = Z.of_nat (length v).
Proof.
  intros H. unfold int_of_size_t, size.
  rewrite word.unsigned_of_Z. unfold word.wrap. rewrite Z.mod_small by lia.
  rewrite word.signed_of_Z. unfold word.swrap.
  change (2 ^ (32 - 1)) with (2 ^ 31). change (2 ^ 32) with 4294967296.
  rewrite Z.mod_small; lia.
Qed.

Lemma unsigned_size_t_of_int (row : int) :
  0 <= word.signed row -> word.unsigned (size_t_of_int row) = word.signed row.
Proof.
  intros H. unfold size_t_of_int. rewrite word.unsigned_of_Z. unfold word.wrap.
  pose proof (word.signed_range row) as Hr.
  change (2 ^ (32 - 1)) with (2 ^ 31) in Hr.
  apply Z.mod_small. change (2 ^ 64) with 18446744073709551616. lia.
Qed.

Lemma row_in_range (row : int) s :
  well_formed s -> Z.of_nat (length (m_depths s)) < 2 ^ 31 ->
  0 <= word.signed row < Z.of_nat (length (m_depths s)) ->
  (word.signed row <? 0) ||
  (word.signed (int_of_size_t (nbOfSetPoints s)) <=? word.signed row) = false /\
  (Z.to_nat (word.unsigned (size_t_of_int row)) < length (m_depths s))%nat.
Proof.
  intros Hwf Hint Hrow. unfold nbOfSetPoints.
  rewrite signed_int_of_size, unsigned_size_t_of_int by lia. split; lia.
Qed.

Lemma removeSetPoint_in_range index s :
  well_formed s -> (index < length (m_depths s))%nat ->
  removeSetPoint index s
  = Some (mkSetPoints (Std.erase index (m_depths s)) (Std.erase index (m_setPoints s))) /\
  well_formed (mkSetPoints (Std.erase index (m_depths s))
                           (Std.erase index (m_setPoints s))).
Proof.
  intros [Hlen Hsz] Hi. unfold removeSetPoint.
  replace (index <? length (m_depths s))%nat with true
    by (symmetry; now apply Nat.ltb_lt).
  replace (index <? length (m_setPoints s))%nat with true
    by (symmetry; apply Nat.ltb_lt; lia).
  split; [reflexivity|]. unfold well_formed. cbn [m_depths m_setPoints].
  rewrite !erase_length by lia. split; lia.
Qed.

(** X14: a click on the delete button of a row of the set point table,
    with more than one set point in the list, takes exactly the entry of
    that row out, writes the list that is left to the file, and keeps the
    sort order. *)
Theorem deleteSetpoint_removes_the_row row s f :
  well_formed s -> Z.of_nat (length (m_depths s)) < 2 ^ 31 ->
  0 <= word.signed row < Z.of_nat (length (m_depths s)) ->
  (1 < length (m_depths s))%nat -> Std.can_write f = true ->
  exists s',
    deleteSetpoint row s f = Some (s', Std.write_file (setpoints_file s') f) /\
    entries s' = Std.erase (Z.to_nat (word.signed row)) (entries s) /\
    length (m_depths s') = (length (m_depths s) - 1)%nat /\
    (sort_order s -> sort_order s').
Proof.
  intros Hwf Hint Hrow Hmore Hw. unfold deleteSetpoint.
  destruct (row_in_range row s Hwf Hint Hrow) as [-> Hi].
  rewrite (nbOfSetPoints_unsigned s Hwf).
  replace (1 <? Z.of_nat (length (m_depths s))) with true by lia.
  rewrite unsigned_size_t_of_int in * by lia.
  destruct (removeSetPoint_in_range _ s Hwf Hi) as [-> Hwf'].
  rewrite (saveSetPointsToFile_image _ f Hw Hwf').
  eexists. split; [reflexivity|]. unfold entries. cbn [m_depths m_setPoints].
  split; [apply erase_combine|]. split; [now apply erase_length|].
  intros Hs. apply Sorted_sort_order. unfold entries. cbn [m_depths m_setPoints].
  rewrite erase_combine.
  apply StronglySorted_Sorted, erase_StronglySorted, in_order_StronglySorted.
  now apply sort_order_Sorted.
Qed.

Lemma deleteSetpoint_removes_the_row_witness :
  exists s',
    deleteSetpoint (word.of_Z 1) default_setpoints missing_file
    = Some (s', Std.write_file (setpoints_file s') missing_file) /\
    entries s' = Std.erase 1 (entries default_setpoints) /\
    length (m_depths s') = 3%nat /\
    (sort_order default_setpoints -> sort_order s').
Proof.
  apply (deleteSetpoint_removes_the_row (word.of_Z 1) default_setpoints missing_file);
    [exact default_setpoints_well_formed | vm_compute; reflexivity
    | vm_compute; split; [discriminate | reflexivity]
    | vm_compute; lia | reflexivity].
Defined.

Lemma setpoint_delete_button_more_than_one s (i : int) :
  well_formed s -> Z.of_nat (length (m_depths s)) < 2 ^ 31 -> 0 <= word.signed i ->
  setpoint_delete_button s i = (1 <? Z.of_nat (length (m_depths s))).
Proof.
  intros Hwf Hint Hi. unfold setpoint_delete_button.
  rewrite (nbOfSetPoints_unsigned s Hwf).
  destruct (1 <? Z.of_nat (length (m_depths s))) eqn:E; [reflexivity|].
  cbn [orb]. apply Z.ltb_ge. apply Z.ltb_ge in E.
  rewrite word.signed_sub. unfold nbOfSetPoints.
  rewrite signed_int_of_size by lia.
  rewrite word.signed_of_Z. unfold word.swrap.
  change (2 ^ (32 - 1)) with 2147483648. change (2 ^ 32) with 4294967296.
  rewrite (Z.mod_small (1 + 2147483648)) by lia.
  rewrite Z.mod_small by lia. lia.
Qed.

(** X15: [refreshSetpointsTable] puts a delete button in a row exactly
    when a click on it makes [deleteSetpoint] take an entry out, that is
    when there is more than one set point; [refreshStopStepsTable] puts
    its buttons by the same test. *)
Theorem delete_button_when_it_deletes (i : int) s f steps :
  well_formed s -> Z.of_nat (length (m_depths s)) < 2 ^ 31 ->
  0 <= word.signed i < Z.of_nat (length (m_depths s)) ->
  (setpoint_delete_button s i = true <->
   exists s' f', deleteSetpoint i s f = Some (s', f') /\
                 (length (m_depths s') < length (m_depths s))%nat) /\
  (stopstep_delete_button steps i = true <-> 1 < nbOfStopSteps steps).
Proof.
  intros Hwf Hint Hi. split.
  - rewrite setpoint_delete_button_more_than_one by (assumption || lia).
    destruct (1 <? Z.of_nat (length (m_depths s))) eqn:E.
    + split; [intros _|reflexivity]. apply Z.ltb_lt in E.
      unfold deleteSetpoint.
      destruct (row_in_range i s Hwf Hint Hi) as [-> Hrow].
      rewrite (nbOfSetPoints_unsigned s Hwf).
      replace (1 <? Z.of_nat (length (m_depths s))) with true by lia.
      destruct (removeSetPoint_in_range _ s Hwf Hrow) as [-> Hwf'].
      destruct (saveSetPointsToFile_defined _ f Hwf') as (saved & f' & ->).
      eexists _, _. split; [reflexivity|]. cbn [m_depths].
      rewrite erase_length by assumption. lia.
    + split; [discriminate|]. intros (s' & f' & Hdel & Hlen). exfalso.
      unfold deleteSetpoint in Hdel.
      rewrite (nbOfSetPoints_unsigned s Hwf), E in Hdel.
      destruct (_ || _); injection Hdel as <- <-; lia.
  - unfold stopstep_delete_button.
    destruct (1 <? nbOfStopSteps steps) eqn:E.
    + apply Z.ltb_lt in E. now split.
    + apply Z.ltb_ge in E. cbn [orb]. split; [|lia].
      intros H. apply Z.ltb_lt in H. lia.
Qed.

Lemma delete_button_when_it_deletes_witness :
  (setpoint_delete_button single_setpoint (word.of_Z 0) = true <->
   exists s' f', deleteSetpoint (word.of_Z 0) single_setpoint missing_file
                 = Some (s', f') /\
                 (length (m_depths s') < length (m_depths single_setpoint))%nat) /\
  (stopstep_delete_button [mkStopStep (Double.lit 6.0) (Double.lit 3.0)] (word.of_Z 0)
   = true <-> 1 < nbOfStopSteps [mkStopStep (Double.lit 6.0) (Double.lit 3.0)]).
Proof.
  apply (delete_button_when_it_deletes (word.of_Z 0) single_setpoint missing_file);
    [split; [reflexivity | vm_compute; reflexivity] | vm_compute; reflexivity
    | vm_compute; split; [discriminate | reflexivity]].
Defined.

Lemma vector_assign_length {A : Type} (x : A) (v : list A) : forall index,
  length (vector_assign index x v) = length v.
Proof.
  induction v as [|y v IH]; intros [|index]; simpl; auto.
Qed.

Lemma vector_assign_combine {A B : Type} (a : A) (b : B) (l : list A) :
  forall (l' : list B) index,
  combine (vector_assign index a l) (vector_assign index b l')
  = vector_assign index (a, b) (combine l l').
Proof.
  induction l as [|x l IH]; intros [|y l'] [|index]; simpl;
    try reflexivity; try (now destruct l); now rewrite IH.
Qed.

Lemma vector_assign_Forall {A : Type} (P : A -> Prop) (x : A) (v : list A) :
  Forall P v -> P x -> forall index, Forall P (vector_assign index x v).
Proof.
  induction 1 as [|y v Hy Hv IH]; intros Hx [|index]; simpl; auto.
Qed.

Lemma vector_assign_nth_error {A : Type} (x : A) (v : list A) : forall index j,
  (index < length v)%nat ->
  nth_error (vector_assign index x v) j
  = if (j =? index)%nat then Some x else nth_error v j.
Proof.
  induction v as [|y v IH]; intros [|index] [|j] H; simpl in *; try lia;
    try reflexivity.
  apply IH. lia.
Qed.

Section SetpointsTableFacts.

Variables (SP_COL_DEPTH SP_COL_SETPOINT : int).

(** X16: an edit of a cell of the set point table that holds a number
    replaces the depth, or the set point, of the entry of that row and
    of no other, sorts the list again and writes it to the file. *)
Theorem setpointCellChanged_edits_the_row row column value s f d sp :
  well_formed s -> Z.of_nat (length (m_depths s)) < 2 ^ 31 ->
  0 <= word.signed row < Z.of_nat (length (m_depths s)) ->
  Std.can_write f = true ->
  word.eqb column SP_COL_DEPTH || word.eqb column SP_COL_SETPOINT = true ->
  nth_error (entries s) (Z.to_nat (word.signed row)) = Some (d, sp) ->
  exists s',
    setpointCellChanged SP_COL_DEPTH SP_COL_SETPOINT row column (Some (true, value)) s f
    = Some (s', Std.write_file (setpoints_file s') f) /\
    Permutation
      (vector_assign (Z.to_nat (word.signed row))
         (if word.eqb column SP_COL_DEPTH then (value, sp) else (d, value))
         (entries s))
      (entries s') /\
    length (m_depths s') = length (m_depths s) /\
    (Forall is_number (m_depths s) -> Forall is_number (m_setPoints s) ->
     is_number value -> sort_order s').
Proof.
  intros Hwf Hint Hrow Hw Hcol Hnth. unfold setpointCellChanged.
  rewrite Hcol. destruct (row_in_range row s Hwf Hint Hrow) as [-> Hi].
  rewrite unsigned_size_t_of_int in * by lia.
  destruct (nth_error_entries_inv s _ d sp Hnth) as [-> ->].
  set (i := Z.to_nat (word.signed row)) in *.
  set (depth := if word.eqb column SP_COL_DEPTH then value else d).
  set (setpoint := if word.eqb column SP_COL_DEPTH then sp else value).
  set (t := mkSetPoints (vector_assign i depth (m_depths s))
                        (vector_assign i setpoint (m_setPoints s))).
  cbn beta iota.
  assert (Ht : well_formed t).
  { destruct Hwf as [Hlen Hsz]. unfold well_formed, t. cbn [m_depths m_setPoints].
    rewrite !vector_assign_length. auto. }
  rewrite (sortSetPoints_sorted_state t) by (destruct Ht; lia).
  rewrite (saveSetPointsToFile_image _ f Hw (sorted_state_well_formed t Ht)).
  eexists. split; [reflexivity|]. rewrite entries_sorted_state.
  assert (Hentries : entries t
                     = vector_assign i
                         (if word.eqb column SP_COL_DEPTH then (value, sp)
                          else (d, value)) (entries s)).
  { unfold entries, t, depth, setpoint. cbn [m_depths m_setPoints].
    rewrite vector_assign_combine. now destruct (word.eqb column SP_COL_DEPTH). }
  split; [rewrite <- Hentries; apply sort_perm|]. split.
  - destruct (sorted_state_lengths t (proj1 Ht)) as [-> _].
    apply vector_assign_length.
  - intros Hd Hs Hv. apply sorted_state_sort_order; unfold t;
      cbn [m_depths m_setPoints]; apply vector_assign_Forall; auto;
      unfold depth, setpoint; destruct (word.eqb column SP_COL_DEPTH); auto.
    + rewrite Forall_forall in Hd. eapply Hd, nth_error_In.
      exact (proj1 (nth_error_entries_inv s _ d sp Hnth)).
    + rewrite Forall_forall in Hs. eapply Hs, nth_error_In.
      exact (proj2 (nth_error_entries_inv s _ d sp Hnth)).
Qed.

End SetpointsTableFacts.

Lemma setpointCellChanged_edits_the_row_witness :
  exists s',
    setpointCellChanged (word.of_Z 0) (word.of_Z 1) (word.of_Z 1) (word.of_Z 0)
      (Some (true, Double.lit 3.0)) default_setpoints missing_file
    = Some (s', Std.write_file (setpoints_file s') missing_file) /\
    Permutation
      [(Double.lit 1000.0, Double.lit 1.3); (Double.lit 3.0, Double.lit 1.4);
       (Double.lit 21.0, Double.lit 1.5); (Double.lit 6.0, Double.lit 1.6)]
      (entries s') /\
    length (m_depths s') = 4%nat /\
    (Forall is_number (m_depths default_setpoints) ->
     Forall is_number (m_setPoints default_setpoints) ->
     is_number (Double.lit 3.0) -> sort_order s').
Proof.
  apply (setpointCellChanged_edits_the_row (word.of_Z 0) (word.of_Z 1) (word.of_Z 1)
           (word.of_Z 0) (Double.lit 3.0) default_setpoints missing_file
           (Double.lit 40.0) (Double.lit 1.4));
    [exact default_setpoints_well_formed | vm_compute; reflexivity
    | vm_compute; split; [discriminate | reflexivity]
    | reflexivity | reflexivity | reflexivity].
Defined.

(** X17: the add button of the set point table adds one entry, a copy of
    the entry at index 0 (the entry (0, 0.7) when the list is empty),
    sorts and writes the list to the file; the list is not empty
    afterwards, and it is in the sort order when its values are
    numbers. *)
Theorem addSetpoint_copies_the_first s f :
  well_formed s -> Z.of_nat (length (m_depths s)) + 1 < 2 ^ 64 ->
  Std.can_write f = true ->
  exists s',
    addSetpoint false s f = Some (false, s', Std.write_file (setpoints_file s') f) /\
    Permutation (entries s ++ [hd (Double.lit 0.0, Double.lit 0.7) (entries s)])
                (entries s') /\
    length (m_depths s') = S (length (m_depths s)) /\
    length (m_setPoints s') = S (length (m_depths s)) /\
    (Forall is_number (m_depths s) -> Forall is_number (m_setPoints s) ->
     sort_order s').
Proof.
  intros Hwf Hsz Hw. unfold addSetpoint.
  rewrite (nbOfSetPoints_unsigned s Hwf).
  set (entry := hd (Double.lit 0.0, Double.lit 0.7) (entries s)).
  assert (Hentry :
    (if 0 <? Z.of_nat (length (m_depths s))
     then d <- nth_error (m_depths s) 0;;
          sp <- nth_error (m_setPoints s) 0;; Some (d, sp)
     else Some (Double.lit 0.0, Double.lit 0.7)) = Some entry).
  { unfold entry, entries. destruct Hwf as [Hlen _].
    destruct (m_depths s) as [|d depths], (m_setPoints s) as [|sp setPoints];
      try discriminate; reflexivity. }
  assert (Hnumber : Forall is_number (m_depths s) ->
                    Forall is_number (m_setPoints s) ->
                    is_number (fst entry) /\ is_number (snd entry)).
  { intros Hd Hp. unfold entry, entries. destruct Hwf as [Hlen _].
    destruct (m_depths s) as [|d depths], (m_setPoints s) as [|sp setPoints];
      try discriminate; cbn [combine hd fst snd].
    - split; vm_compute; reflexivity.
    - split; [now apply Forall_inv in Hd | now apply Forall_inv in Hp]. }
  rewrite Hentry. destruct entry as [depth setpoint]. unfold addSetPoint.
  cbn [fst snd] in Hnumber.
  set (t := mkSetPoints (m_depths s ++ [depth]) (m_setPoints s ++ [setpoint])).
  assert (Ht : well_formed t).
  { destruct Hwf as [Hlen _]. unfold well_formed, t. cbn [m_depths m_setPoints].
    rewrite !length_app. cbn [length]. split; lia. }
  rewrite (sortSetPoints_sorted_state t) by (destruct Ht; lia).
  rewrite (saveSetPointsToFile_image _ f Hw (sorted_state_well_formed t Ht)).
  eexists. split; [reflexivity|]. rewrite entries_sorted_state.
  split.
  - rewrite <- (entries_app s depth setpoint (proj1 Hwf)). apply sort_perm.
  - destruct (sorted_state_lengths t (proj1 Ht)) as [-> ->].
    unfold t. cbn [m_depths]. rewrite length_app. cbn [length].
    refine (conj _ (conj _ _)); try lia.
    intros Hd Hp. destruct (Hnumber Hd Hp) as [Hdepth Hsetpoint].
    apply sorted_state_sort_order; unfold t; cbn [m_depths m_setPoints];
      apply Forall_app; auto.
Qed.

Lemma addSetpoint_copies_the_first_witness :
  exists s',
    addSetpoint false single_setpoint missing_file
    = Some (false, s', Std.write_file (setpoints_file s') missing_file) /\
    Permutation (entries single_setpoint
                 ++ [hd (Double.lit 0.0, Double.lit 0.7) (entries single_setpoint)])
                (entries s') /\
    length (m_depths s') = 2%nat /\ length (m_setPoints s') = 2%nat /\
    (Forall is_number (m_depths single_setpoint) ->
     Forall is_number (m_setPoints single_setpoint) -> sort_order s').
Proof.
  apply (addSetpoint_copies_the_first single_setpoint missing_file);
    [split; [reflexivity | vm_compute; reflexivity] | vm_compute; reflexivity
    | reflexivity].
Defined.

Lemma loadSetPointsFromFile_holds s s0 f junk :
  Std.can_read f = true -> Std.contents f = Some (setpoints_file s ++ junk) ->
  well_formed s ->
  loadSetPointsFromFile s0 f
  = Some (true, match m_depths s with [] => default_setpoints | _ :: _ => s end, f).
Proof.
  intros Hr Hc Hwf. destruct (m_depths s) as [|d depths] eqn:E.
  - destruct s as [depths setPoints]. cbn [m_depths] in E. subst depths.
    destruct Hwf as [Hlen _]. destruct setPoints; [|discriminate].
    unfold loadSetPointsFromFile. rewrite Hc, Hr.
    unfold setpoints_file, entries. cbn [m_depths m_setPoints combine flat_map].
    rewrite app_nil_r, read_uninit_whole by apply bytes_of_size_t_length.
    rewrite size_t_of_bytes_of_size_t. reflexivity.
  - apply (loadSetPointsFromFile_image s s0 f junk Hr Hc Hwf). now rewrite E.
Qed.

(** X18: the constructor of [DivePlanWindow] leaves at least one set
    point, whatever the list was: with no file, with a file that cannot
    be opened, or with a file that holds a list, empty or not. *)
Theorem DivePlanWindow_loadSetPoints_not_empty s0 f :
  (Std.contents f = None \/ Std.can_read f = false \/
   exists s junk, Std.contents f = Some (setpoints_file s ++ junk) /\ well_formed s) ->
  exists s' f',
    DivePlanWindow_loadSetPoints s0 f = Some (s', f') /\
    m_depths s' <> [] /\ length (m_depths s') = length (m_setPoints s').
Proof.
  intros Hf. unfold DivePlanWindow_loadSetPoints.
  destruct (Std.contents f) as [data|] eqn:Hc.
  - destruct (Std.can_read f) eqn:Hr.
    + destruct Hf as [Hf|[Hf|(s & junk & Hs & Hwf)]]; try discriminate.
      rewrite <- Hc in Hs.
      rewrite (loadSetPointsFromFile_holds s s0 f junk Hr Hs Hwf).
      cbn [negb andb].
      set (t := match m_depths s with [] => default_setpoints | _ :: _ => s end).
      assert (Ht : well_formed t /\ m_depths t <> []).
      { unfold t. destruct (m_depths s) eqn:E.
        - split; [exact default_setpoints_well_formed | discriminate].
        - split; [assumption | now rewrite E]. }
      destruct Ht as [[Hlen Hsz] Hne].
      rewrite (sortSetPoints_sorted_state t) by lia.
      eexists _, _. split; [reflexivity|].
      destruct (sorted_state_lengths t Hlen) as [Hd Hs'].
      split; [|congruence]. intros H. rewrite H in Hd.
      destruct (m_depths t); [contradiction | discriminate].
    + unfold loadSetPointsFromFile. rewrite Hc, Hr.
      replace (addSetPoint (Double.lit 0.0) (Double.lit 0.7) (mkSetPoints [] []))
        with (Some (mkSetPoints [Double.lit 0.0] [Double.lit 0.7]))
        by (vm_compute; reflexivity).
      replace (negb false && (word.unsigned (nbOfSetPoints (mkSetPoints [] [])) =? 0))
        with true by (vm_compute; reflexivity).
      destruct (saveSetPointsToFile_defined
                  (mkSetPoints [Double.lit 0.0] [Double.lit 0.7]) f)
        as (saved & f' & Hsave); [split; [reflexivity | vm_compute; reflexivity]|].
      replace (sortSetPoints (mkSetPoints [Double.lit 0.0] [Double.lit 0.7]))
        with (Some (mkSetPoints [Double.lit 0.0] [Double.lit 0.7]))
        by (vm_compute; reflexivity).
      cbn beta iota. rewrite Hsave.
      eexists _, _. split; [reflexivity|]. split; [discriminate | reflexivity].
  - unfold loadSetPointsFromFile. rewrite Hc.
    replace (setToDefault (mkSetPoints [] [])) with (Some default_setpoints)
      by (vm_compute; reflexivity).
    destruct (saveSetPointsToFile_defined default_setpoints f
                default_setpoints_well_formed) as (saved & f' & Hsave).
    cbn beta iota. rewrite Hsave.
    replace (negb false && (word.unsigned (nbOfSetPoints default_setpoints) =? 0))
      with false by (vm_compute; reflexivity).
    replace (sortSetPoints default_setpoints) with (Some default_setpoints)
      by (vm_compute; reflexivity).
    eexists _, _. split; [reflexivity|]. split; [discriminate | reflexivity].
Qed.

Lemma DivePlanWindow_loadSetPoints_not_empty_witness :
  exists s' f',
    DivePlanWindow_loadSetPoints example_setpoints
      (Std.mkFile (Some (setpoints_file no_setpoints ++ [])) true true)
    = Some (s', f') /\
    m_depths s' <> [] /\ length (m_depths s') = length (m_setPoints s').
Proof.
  apply (DivePlanWindow_loadSetPoints_not_empty example_setpoints).
  right. right. exists no_setpoints, [].
  split; [reflexivity | split; [reflexivity | vm_compute; reflexivity]].
Defined.

(** ** The handlers of the gas list window *)

Lemma erase_last {A : Type} (x : A) (l : list A) :
  Std.erase (length l) (l ++ [x]) = l.
Proof.
  induction l as [|y l IH]; simpl; [reflexivity|]. now rewrite IH.
Qed.

Lemma signed_of_length (n : nat) :
  Z.of_nat n < 2 ^ 31 -> word.signed (word.of_Z (Z.of_nat n) : int) = Z.of_nat n.
Proof.
  intros H. rewrite word.signed_of_Z. unfold word.swrap.
  change (2 ^ (32 - 1)) with 2147483648. change (2 ^ 32) with 4294967296.
  rewrite Z.mod_small; lia.
Qed.

Lemma editGas_in_range (row : int) o2Percent hePercent gasType gasStatus gases :
  0 <= word.signed row < Z.of_nat (length gases) ->
  editGas row o2Percent hePercent gasType gasStatus gases
  = Some (vector_assign (Z.to_nat (word.signed row))
            (mkGas o2Percent hePercent gasType gasStatus) gases).
Proof.
  intros Hrow. unfold editGas. rewrite unsigned_size_t_of_int by lia.
  now replace (Z.to_nat (word.signed row) <? length gases)%nat with true
    by (symmetry; apply Nat.ltb_lt; lia).
Qed.

Lemma deleteGas_in_range (row : int) gases :
  0 <= word.signed row < Z.of_nat (length gases) ->
  deleteGas row gases = Some (Std.erase (Z.to_nat (word.signed row)) gases).
Proof.
  intros Hrow. unfold deleteGas.
  now replace ((0 <=? word.signed row) &&
               (word.signed row <? Z.of_nat (length gases))) with true by lia.
Qed.

(** X19: [GasList::deleteGas] at the index of the gas that
    [GasList::addGas] has just added gives the list back. *)
Theorem deleteGas_after_addGas o2Percent hePercent gasType gasStatus gases :
  Z.of_nat (length gases) < 2 ^ 31 ->
  deleteGas (word.of_Z (Z.of_nat (length gases)))
    (addGas o2Percent hePercent gasType gasStatus gases) = Some gases.
Proof.
  intros H. rewrite deleteGas_in_range; rewrite signed_of_length by assumption.
  - unfold addGas. now rewrite Nat2Z.id, erase_last.
  - unfold addGas. rewrite length_app. cbn [length]. lia.
Qed.

Lemma deleteGas_after_addGas_witness :
  deleteGas (word.of_Z 1)
    (addGas (Double.lit 50.0) (Double.lit 0.0) (word.of_Z 1) (word.of_Z 0)
       [default_gas (word.of_Z 0) (word.of_Z 0)])
  = Some [default_gas (word.of_Z 0) (word.of_Z 0)].
Proof.
  apply (deleteGas_after_addGas (Double.lit 50.0) (Double.lit 0.0) (word.of_Z 1)
           (word.of_Z 0) [default_gas (word.of_Z 0) (word.of_Z 0)]).
  vm_compute. reflexivity.
Defined.

Section GasListWindowFacts.

Variables (BOTTOM : GasType) (ACTIVE INACTIVE : GasStatus) (max_size : Z).

Lemma gas_row_in_range (row : int) (gases : list Gas) :
  Z.of_nat (length gases) < 2 ^ 31 ->
  0 <= word.signed row < Z.of_nat (length gases) ->
  (0 <=? word.signed row) &&
  (word.signed row <? word.signed (int_of_size_t (size gases))) = true.
Proof.
  intros Hint Hrow. rewrite signed_int_of_size by assumption. lia.
Qed.

(** X20: a change of the type, or of the status, of a row of the gas
    table changes that field of the gas of that row and nothing else in
    the list; a box that is not checked makes the gas inactive. *)
Theorem gas_handlers_change_one_field (row index state : int) gases f gas :
  Z.of_nat (length gases) < 2 ^ 31 ->
  nth_error gases (Z.to_nat (word.signed row)) = Some gas -> 0 <= word.signed row ->
  (exists gases' f',
     gasTypeChanged row index gases f = Some (gases', f') /\
     length gases' = length gases /\
     forall j, nth_error gases' j
               = if (j =? Z.to_nat (word.signed row))%nat
                 then Some (mkGas (m_o2Percent gas) (m_hePercent gas) index
                              (m_gasStatus gas))
                 else nth_error gases j) /\
  (exists gases' f',
     gasStatusChanged ACTIVE INACTIVE row state gases f = Some (gases', f') /\
     length gases' = length gases /\
     forall j, nth_error gases' j
               = if (j =? Z.to_nat (word.signed row))%nat
                 then Some (mkGas (m_o2Percent gas) (m_hePercent gas) (m_gasType gas)
                              (if word.eqb state Qt_Checked then ACTIVE else INACTIVE))
                 else nth_error gases j).
Proof.
  intros Hint Hnth Hrow0.
  assert (Hrow : 0 <= word.signed row < Z.of_nat (length gases)).
  { pose proof (proj1 (nth_error_Some gases (Z.to_nat (word.signed row)))) as H.
    rewrite Hnth in H. specialize (H ltac:(discriminate)). lia. }
  split.
  - unfold gasTypeChanged. rewrite gas_row_in_range by assumption.
    rewrite unsigned_size_t_of_int, Hnth by lia. cbn beta iota.
    rewrite editGas_in_range by assumption.
    destruct (saveGaslistToFile _ f) as [saved f'].
    eexists _, f'. split; [reflexivity|].
    split; [apply vector_assign_length|].
    intros j. apply vector_assign_nth_error. lia.
  - unfold gasStatusChanged. rewrite gas_row_in_range by assumption.
    rewrite unsigned_size_t_of_int, Hnth by lia. cbn beta iota.
    rewrite editGas_in_range by assumption.
    destruct (saveGaslistToFile _ f) as [saved f'].
    eexists _, f'. split; [reflexivity|].
    split; [apply vector_assign_length|].
    intros j. apply vector_assign_nth_error. lia.
Qed.


End GasListWindowFacts.

Lemma gas_handlers_change_one_field_witness :
  (exists gases' f',
     gasTypeChanged (word.of_Z 0) (word.of_Z 2)
       [default_gas (word.of_Z 0) (word.of_Z 0)] missing_file = Some (gases', f') /\
     length gases' = 1%nat /\
     forall j, nth_error gases' j
               = if (j =? 0)%nat
                 then Some (mkGas (Double.lit 21.0) (Double.lit 0.0) (word.of_Z 2)
                              (word.of_Z 0))
                 else nth_error [default_gas (word.of_Z 0) (word.of_Z 0)] j) /\
  (exists gases' f',
     gasStatusChanged (word.of_Z 0) (word.of_Z 1) (word.of_Z 0) (word.of_Z 1)
       [default_gas (word.of_Z 0) (word.of_Z 0)] missing_file = Some (gases', f') /\
     length gases' = 1%nat /\
     forall j, nth_error gases' j
               = if (j =? 0)%nat
                 then Some (mkGas (Double.lit 21.0) (Double.lit 0.0) (word.of_Z 0)
                              (word.of_Z 1))
                 else nth_error [default_gas (word.of_Z 0) (word.of_Z 0)] j).
Proof.
  apply (gas_handlers_change_one_field (word.of_Z 0) (word.of_Z 1) (word.of_Z 0)
           (word.of_Z 2) (word.of_Z 1) [default_gas (word.of_Z 0) (word.of_Z 0)]
           missing_file (default_gas (word.of_Z 0) (word.of_Z 0)));
    [vm_compute; reflexivity | reflexivity | vm_compute; discriminate].
Defined.


(** ** [setToDefault] on a list that is not empty *)

Lemma addSetPoint_adds depth setpoint s :
  length (m_depths s) = length (m_setPoints s) ->
  exists s',
    addSetPoint depth setpoint s = Some s' /\
    length (m_depths s') = length (m_setPoints s') /\
    length (m_depths s') = S (length (m_depths s)) /\
    Permutation (entries s ++ [(depth, setpoint)]) (entries s') /\
    (Forall is_number (m_depths s) -> Forall is_number (m_setPoints s) ->
     is_number depth -> is_number setpoint ->
     sort_order s' /\
     Forall is_number (m_depths s') /\ Forall is_number (m_setPoints s')).
Proof.
  intros Hlen. unfold addSetPoint.
  set (t := mkSetPoints (m_depths s ++ [depth]) (m_setPoints s ++ [setpoint])).
  assert (Ht : length (m_depths t) = length (m_setPoints t))
    by (unfold t; cbn [m_depths m_setPoints]; rewrite !length_app; simpl; lia).
  exists (sorted_state t). split; [apply sortSetPoints_sorted_state; lia|].
  destruct (sorted_state_lengths t Ht) as [Hd Hs].
  split; [congruence|]. split; [|split].
  - rewrite Hd. unfold t. cbn [m_depths]. rewrite length_app. simpl. lia.
  - rewrite entries_sorted_state, <- (entries_app s depth setpoint Hlen).
    apply sort_perm.
  - intros Hdepths Hsetpoints Hdepth Hsetpoint.
    assert (Htd : Forall is_number (m_depths t))
      by (unfold t; cbn [m_depths]; apply Forall_app; auto).
    assert (Hts : Forall is_number (m_setPoints t))
      by (unfold t; cbn [m_setPoints]; apply Forall_app; auto).
    split; [now apply sorted_state_sort_order|]. split.
    + eapply Permutation_Forall; [apply sorted_state_depths, Ht | exact Htd].
    + eapply Permutation_Forall; [apply sorted_state_setpoints, Ht | exact Hts].
Qed.

(** X22: [setToDefault] does not start from an empty list: it adds the
    four default entries to the entries the list has, and sorts: the
    list is in the sort order afterwards when its values are numbers. *)
Theorem setToDefault_adds_to_the_list s :
  length (m_depths s) = length (m_setPoints s) ->
  exists s',
    setToDefault s = Some s' /\
    Permutation (entries s ++ entries default_setpoints) (entries s') /\
    length (m_depths s') = (length (m_depths s) + 4)%nat /\
    length (m_setPoints s') = (length (m_depths s) + 4)%nat /\
    (Forall is_number (m_depths s) -> Forall is_number (m_setPoints s) ->
     sort_order s').
Proof.
  intros Hlen. unfold setToDefault.
  destruct (addSetPoint_adds (Double.lit 1000.0) (Double.lit 1.3) s Hlen)
    as (s1 & -> & Hlen1 & Hn1 & Hp1 & Hs1).
  destruct (addSetPoint_adds (Double.lit 40.0) (Double.lit 1.4) s1 Hlen1)
    as (s2 & -> & Hlen2 & Hn2 & Hp2 & Hs2).
  destruct (addSetPoint_adds (Double.lit 21.0) (Double.lit 1.5) s2 Hlen2)
    as (s3 & -> & Hlen3 & Hn3 & Hp3 & Hs3).
  destruct (addSetPoint_adds (Double.lit 6.0) (Double.lit 1.6) s3 Hlen3)
    as (s4 & -> & Hlen4 & Hn4 & Hp4 & Hs4).
  exists s4. split; [reflexivity|].
  assert (N1 : is_number (Double.lit 1000.0) /\ is_number (Double.lit 1.3))
    by (split; vm_compute; reflexivity).
  assert (N2 : is_number (Double.lit 40.0) /\ is_number (Double.lit 1.4))
    by (split; vm_compute; reflexivity).
  assert (N3 : is_number (Double.lit 21.0) /\ is_number (Double.lit 1.5))
    by (split; vm_compute; reflexivity).
  assert (N4 : is_number (Double.lit 6.0) /\ is_number (Double.lit 1.6))
    by (split; vm_compute; reflexivity).
  refine (conj _ (conj _ (conj _ _))); try lia.
  2: { intros Hd Hp.
       destruct (Hs1 Hd Hp (proj1 N1) (proj2 N1)) as (_ & Hd1 & Hp1').
       destruct (Hs2 Hd1 Hp1' (proj1 N2) (proj2 N2)) as (_ & Hd2 & Hp2').
       destruct (Hs3 Hd2 Hp2' (proj1 N3) (proj2 N3)) as (_ & Hd3 & Hp3').
       exact (proj1 (Hs4 Hd3 Hp3' (proj1 N4) (proj2 N4))). }
  eapply perm_trans; [|exact Hp4].
  change (entries default_setpoints)
    with ([(Double.lit 1000.0, Double.lit 1.3)] ++ [(Double.lit 40.0, Double.lit 1.4)]
          ++ [(Double.lit 21.0, Double.lit 1.5)] ++ [(Double.lit 6.0, Double.lit 1.6)]).
  rewrite !app_assoc. apply Permutation_app_tail.
  eapply perm_trans; [|exact Hp3]. apply Permutation_app_tail.
  eapply perm_trans; [|exact Hp2]. now apply Permutation_app_tail.
Qed.

Lemma setToDefault_adds_to_the_list_witness :
  exists s',
    setToDefault single_setpoint = Some s' /\
    Permutation (entries single_setpoint ++ entries default_setpoints) (entries s') /\
    length (m_depths s') = 5%nat /\ length (m_setPoints s') = 5%nat /\
    (Forall is_number (m_depths single_setpoint) ->
     Forall is_number (m_setPoints single_setpoint) -> sort_order s').
Proof.
  apply (setToDefault_adds_to_the_list single_setpoint). reflexivity.
Defined.
